(** * Device online state: the heartbeat state machine of src/lib/device-online-state.ts

    The manager turns heartbeats of devices into the persisted
    [api_heartbeat_state] of each device.  It talks to three collaborators:
    Redis (one record per device, with an expiry), an RSMQ queue (messages
    delivered after a delay) and the API ([resinApi.patch] on the device
    resource).  The functions of the class are Bluebird promise chains; they
    are embedded here as computations in a state-and-rejection monad over a
    [World] that holds the three collaborators, the errors handed to
    [captureException] and the log of every call made. *)

From Stdlib Require Import ZArith Bool.
From stdpp Require Import base gmap strings list pretty.

Local Open Scope string_scope.
Local Open Scope list_scope.
Local Open Scope Z_scope.

(** ** Data *)

(** [export enum DeviceOnlineStates] *)
Inductive DeviceOnlineStates := Unknown | Timeout | Offline | Online.

Definition state_value (s : DeviceOnlineStates) : Z :=
  match s with
  | Unknown => -2
  | Timeout => -1
  | Offline => 0
  | Online => 1
  end.

(** The string stored in Redis for a device is only ever inspected through
    [JSON.parse] followed by the destructuring of [id] and [currentState]
    (lines 246 and 290), so a stored string is represented by what those two
    steps make of it: the two fields, or [RecordInvalid] when [JSON.parse]
    or the destructuring throws.  [id] has the type the source declares for
    it; the empty string stands for every falsy [id]. *)
Inductive record_text :=
  | RecordJson (id : string) (currentState : Z)
  | RecordInvalid.

(** The text of a queue message, in the same way (lines 186-189). *)
Inductive message_text :=
  | MessageJson (uuid : string) (nextState : Z)
  | MessageInvalid.

(** The calls to the collaborators; each one can be rejected. *)
Inductive op := RedisGet | RedisSet | QueueSend | QueueReceive | QueueDelete | ApiPatch.

Definition op_eqb (a b : op) : bool :=
  match a, b with
  | RedisGet, RedisGet | RedisSet, RedisSet | QueueSend, QueueSend
  | QueueReceive, QueueReceive | QueueDelete, QueueDelete | ApiPatch, ApiPatch => true
  | _, _ => false
  end.

(** What a promise can be rejected with. *)
Inductive error :=
  | CallFailed (o : op)            (* the collaborator rejected the call *)
  | ParseError                     (* JSON.parse or the destructuring threw *)
  | UnexpectedState (nextState : Z) (* the Error thrown at line 204 *).

(** The log: one entry per call to a collaborator, to [captureException] and
    to [Bluebird.delay], oldest first.  [ok] tells whether the call was
    fulfilled; a fulfilled patch carries the number of rows it changed. *)
Inductive event :=
  | EvGet (key : string) (ok : bool)
  | EvSet (key : string) (value : record_text) (ttl : Z) (ok : bool)
  | EvSend (message : message_text) (delay : Z) (ok : bool)
  | EvReceive (vt : Z) (ok : bool)
  | EvDelete (id : string) (ok : bool)
  | EvPatch (uuid : string) (state : Z) (rows : option nat)
  | EvReport (e : error) (context : option string)
  | EvDelay (ms : Z)
  | EvUnhandled (e : error).

(** A Redis entry with its expiry, and a queue message with the time from
    which it can be received; times are in milliseconds. *)
Record entry := Entry { e_value : record_text; e_expires : Z }.

Record qmsg := QMsg { m_id : string; m_message : message_text; m_visible : Z }.

Record World := MkWorld {
  w_now : Z;                      (* the clock *)
  w_store : gmap string entry;    (* Redis *)
  w_queue : list qmsg;            (* the RSMQ queue 'expired' *)
  w_sent : N;                     (* messages sent so far: the source of ids *)
  w_devices : gmap string Z;      (* api_heartbeat_state of each device, by uuid *)
  w_faults : op -> list bool;     (* for each kind of call, which of the coming calls are rejected *)
  w_trace : list event            (* the log *)
}.

Definition set_now (t : Z) (w : World) : World :=
  MkWorld t (w_store w) (w_queue w) (w_sent w) (w_devices w) (w_faults w) (w_trace w).
Definition set_store (s : gmap string entry) (w : World) : World :=
  MkWorld (w_now w) s (w_queue w) (w_sent w) (w_devices w) (w_faults w) (w_trace w).
Definition set_queue (q : list qmsg) (w : World) : World :=
  MkWorld (w_now w) (w_store w) q (w_sent w) (w_devices w) (w_faults w) (w_trace w).
Definition set_sent (n : N) (w : World) : World :=
  MkWorld (w_now w) (w_store w) (w_queue w) n (w_devices w) (w_faults w) (w_trace w).
Definition set_devices (d : gmap string Z) (w : World) : World :=
  MkWorld (w_now w) (w_store w) (w_queue w) (w_sent w) d (w_faults w) (w_trace w).
Definition set_faults (f : op -> list bool) (w : World) : World :=
  MkWorld (w_now w) (w_store w) (w_queue w) (w_sent w) (w_devices w) f (w_trace w).
Definition log (e : event) (w : World) : World :=
  MkWorld (w_now w) (w_store w) (w_queue w) (w_sent w) (w_devices w) (w_faults w)
          (w_trace w ++ [e]).

(** ** Promises *)

Inductive outcome (A : Type) :=
  | Fulfilled (a : A)
  | Rejected (e : error).
Arguments Fulfilled {A} a.
Arguments Rejected {A} e.

Definition Promise (A : Type) : Type := World -> outcome A * World.

Definition resolve {A} (a : A) : Promise A := fun w => (Fulfilled a, w).

Definition reject {A} (e : error) : Promise A := fun w => (Rejected e, w).

(** [p.then(f)] *)
Definition and_then {A B} (p : Promise A) (f : A -> Promise B) : Promise B :=
  fun w =>
    match p w with
    | (Fulfilled a, w') => f a w'
    | (Rejected e, w') => (Rejected e, w')
    end.

(** [p.catch(h)] *)
Definition catch {A} (p : Promise A) (h : error -> Promise A) : Promise A :=
  fun w =>
    match p w with
    | (Fulfilled a, w') => (Fulfilled a, w')
    | (Rejected e, w') => h e w'
    end.

(** A chain that is started and neither returned nor awaited (line 194): its
    value is dropped and a rejection reaches no handler.  The source starts
    the chain, with its first call, before it goes on, and lets the later
    calls of the chain fall among what follows; here the whole chain runs at
    the place where it is started. *)
Definition detached {A} (p : Promise A) : Promise unit :=
  fun w =>
    match p w with
    | (Fulfilled _, w') => (Fulfilled tt, w')
    | (Rejected e, w') => (Fulfilled tt, log (EvUnhandled e) w')
    end.

Declare Scope promise_scope.
Delimit Scope promise_scope with promise.
Notation "x <- p ;; k" := (and_then p (fun x => k))
  (at level 100, p at next level, right associativity) : promise_scope.
Notation "p ;;; k" := (and_then p (fun _ => k))
  (at level 100, right associativity) : promise_scope.
Local Open Scope promise_scope.

(** ** The collaborators *)

Definition fails (o : op) (w : World) : bool :=
  match w_faults w o with
  | b :: _ => b
  | [] => false
  end.

Definition next_fault (o : op) (w : World) : World :=
  set_faults (fun o' => if op_eqb o o' then tail (w_faults w o') else w_faults w o') w.

(** A call to a collaborator: rejected when the world says so, and else
    carried out by [run]; logged either way. *)
Definition external {A} (o : op) (ev : option A -> event) (run : World -> A * World)
  : Promise A :=
  fun w =>
    let w1 := next_fault o w in
    if fails o w then (Rejected (CallFailed o), log (ev None) w1)
    else let (a, w2) := run w1 in (Fulfilled a, log (ev (Some a)) w2).

Definition is_some {A} (o : option A) : bool :=
  match o with Some _ => true | None => false end.

(** [redis.getAsync(key)]: [None] is the [null] of a key that is absent or
    has expired. *)
Definition live_value (key : string) (w : World) : option record_text :=
  match w_store w !! key with
  | Some e => if w_now w <? e_expires e then Some (e_value e) else None
  | None => None
  end.

Definition redis_getAsync (key : string) : Promise (option record_text) :=
  external RedisGet (fun r => EvGet key (is_some r)) (fun w => (live_value key w, w)).

(** [redis.setAsync(key, value, 'EX', ttl)] *)
Definition redis_setAsync (key : string) (value : record_text) (ttl : Z) : Promise string :=
  external RedisSet (fun r => EvSet key value ttl (is_some r))
    (fun w => ("OK", set_store (<[key := Entry value (w_now w + ttl * 1000)]> (w_store w)) w)).

(** [rsmq.sendMessageAsync({qname, message, delay})]: the queue gives the
    message an id of its own and holds it back for [delay] seconds. *)
Definition message_id (n : N) : string := "m" +:+ pretty n.

Definition rsmq_sendMessageAsync (message : message_text) (delay : Z) : Promise string :=
  external QueueSend (fun r => EvSend message delay (is_some r))
    (fun w =>
       let id := message_id (w_sent w) in
       (id, set_sent (w_sent w + 1)%N
              (set_queue (w_queue w ++ [QMsg id message (w_now w + delay * 1000)]) w))).

(** [rsmq.receiveMessageAsync({qname, vt})]: the message that became
    receivable first, if one is; it is hidden for [vt] seconds and stays in
    the queue.  [None] is the object without an [id]. *)
Fixpoint earliest (now : Z) (q : list qmsg) : option qmsg :=
  match q with
  | [] => None
  | m :: q' =>
      match earliest now q' with
      | Some m' =>
          if (m_visible m <=? now) && (m_visible m <=? m_visible m') then Some m else Some m'
      | None => if m_visible m <=? now then Some m else None
      end
  end.

Definition hide (id : string) (until : Z) (q : list qmsg) : list qmsg :=
  map (fun m => if String.eqb (m_id m) id then QMsg (m_id m) (m_message m) until else m) q.

Definition rsmq_receiveMessageAsync (vt : Z) : Promise (option (string * message_text)) :=
  external QueueReceive (fun r => EvReceive vt (is_some r))
    (fun w =>
       match earliest (w_now w) (w_queue w) with
       | Some m =>
           (Some (m_id m, m_message m),
            set_queue (hide (m_id m) (w_now w + vt * 1000) (w_queue w)) w)
       | None => (None, w)
       end).

(** [rsmq.deleteMessageAsync({qname, id})]: fulfilled with the number of
    messages removed, 0 when the id is not in the queue. *)
Definition without (id : string) (q : list qmsg) : list qmsg :=
  List.filter (fun m => negb (String.eqb (m_id m) id)) q.

Definition rsmq_deleteMessageAsync (id : string) : Promise nat :=
  external QueueDelete (fun r => EvDelete id (is_some r))
    (fun w =>
       ((length (w_queue w) - length (without id (w_queue w)))%nat,
        set_queue (without id (w_queue w)) w)).

(** [resinApi.patch] on [device] with [$filter: { uuid, $not: body }]: the
    row of the device is written when its state is not the new one already. *)
Definition patch_filtered (uuid : string) (state : Z) (d : gmap string Z)
  : nat * gmap string Z :=
  match d !! uuid with
  | Some s => if s =? state then (0%nat, d) else (1%nat, <[uuid := state]> d)
  | None => (0%nat, d)
  end.

Definition resinApi_patch (uuid : string) (state : Z) : Promise nat :=
  external ApiPatch (fun r => EvPatch uuid state r)
    (fun w =>
       let (n, d) := patch_filtered uuid state (w_devices w) in (n, set_devices d w)).

(** [captureException(err, message)] never throws. *)
Definition captureException (e : error) (context : option string) : Promise unit :=
  fun w => (Fulfilled tt, log (EvReport e context) w).

(** [Bluebird.delay(ms)] *)
Definition Bluebird_delay (ms : Z) : Promise unit :=
  fun w => (Fulfilled tt, log (EvDelay ms) (set_now (w_now w + ms) w)).

(** [JSON.parse] with the destructuring that follows it. *)
Definition parse_record (v : record_text) : Promise (string * Z) :=
  match v with
  | RecordJson id currentState => resolve (id, currentState)
  | RecordInvalid => reject ParseError
  end.

Definition parse_message (v : message_text) : Promise (string * Z) :=
  match v with
  | MessageJson uuid nextState => resolve (uuid, nextState)
  | MessageInvalid => reject ParseError
  end.

(** A string is truthy when it is not empty. *)
Definition truthy (s : string) : bool := negb (String.eqb s "").

(** ** The manager: [class DeviceOnlineStateManager] *)

Definition REDIS_NAMESPACE : string := "device-online-state".
Definition RSMQ_READ_TIMEOUT : Z := 30.

(** The Redis key of a device, [`${REDIS_NAMESPACE}:${uuid}`]. *)
Definition record_key (uuid : string) : string := REDIS_NAMESPACE +:+ ":" +:+ uuid.

(** [updateDeviceModel] (lines 138-167) *)
Definition updateDeviceModel (uuid : string) (newState : DeviceOnlineStates) : Promise bool :=
  catch
    (resinApi_patch uuid (state_value newState) ;;; resolve true)
    (fun err =>
       captureException err
         (Some "DeviceStateManager: Error updating the API with the device new state.") ;;;
       resolve false).

(** [deviceOnline] (lines 170-172) *)
Definition deviceOnline (uuid : string) : Promise bool :=
  updateDeviceModel uuid Online.

(** [scheduleChangeOfStateForDevice] (lines 232-278); [noop] is the handler
    of line 254. *)
Definition noop (_ : error) : Promise unit := resolve tt.

Definition scheduleChangeOfStateForDevice
  (uuid : string) (currentState nextState : DeviceOnlineStates) (delay : Z) : Promise string :=
  (value <- redis_getAsync (record_key uuid) ;;
   match value with
   | None => resolve tt
   | Some v =>
       r <- parse_record v ;;
       if truthy (fst r)
       then catch (rsmq_deleteMessageAsync (fst r) ;;; resolve tt) noop
       else resolve tt
   end) ;;;
  (id <- rsmq_sendMessageAsync (MessageJson uuid (state_value nextState)) delay ;;
   redis_setAsync (record_key uuid) (RecordJson id (state_value currentState)) (delay + 5)).

(** [captureEventFor] (lines 280-317) *)
Definition captureEventFor (uuid : string) (timeoutSeconds : Z) : Promise string :=
  setDeviceOnline <-
    catch
      (value <- redis_getAsync (record_key uuid) ;;
       match value with
       | None => resolve true
       | Some v =>
           r <- parse_record v ;;
           if negb (truthy (fst r)) || negb (snd r =? state_value Online)
           then resolve true
           else resolve false
       end)
      (fun _ => resolve true) ;;
  (if setDeviceOnline : bool then deviceOnline uuid ;;; resolve tt else resolve tt) ;;;
  scheduleChangeOfStateForDevice uuid Online Timeout timeoutSeconds.

Section Consumer.

(** [API_HEARTBEAT_STATE_TIMEOUT_SECONDS] comes from lib/config. *)
Variable API_HEARTBEAT_STATE_TIMEOUT_SECONDS : Z.

(** The [switch] of lines 192-207. *)
Definition dispatch (uuid : string) (nextState : Z) : Promise bool :=
  if nextState =? state_value Timeout then
    detached (scheduleChangeOfStateForDevice uuid Timeout Offline
                API_HEARTBEAT_STATE_TIMEOUT_SECONDS) ;;;
    updateDeviceModel uuid Timeout
  else if nextState =? state_value Offline then
    updateDeviceModel uuid Offline
  else
    reject (UnexpectedState nextState).

(** What is done with a received message (lines 183-215). *)
Definition handle (id : string) (message : message_text) : Promise unit :=
  catch
    ((r <- parse_message message ;; dispatch (fst r) (snd r)) ;;;
     rsmq_deleteMessageAsync id ;;;
     resolve tt)
    (fun err => captureException err None).

(** One round of [consume] (lines 176-226), up to the call of
    [this.consume()] at line 227. *)
Definition consume_round : Promise unit :=
  catch
    (msg <- rsmq_receiveMessageAsync RSMQ_READ_TIMEOUT ;;
     match msg with
     | Some (id, message) => handle id message
     | None => Bluebird_delay 1000
     end)
    (fun err =>
       captureException err (Some "DeviceStateManager ==> Error when consuming queue")).

(** [consume] calls itself when its round is fulfilled, without end; the
    rounds are counted here. *)
Fixpoint consume (rounds : nat) : Promise unit :=
  match rounds with
  | O => resolve tt
  | S n => consume_round ;;; consume n
  end.

End Consumer.

(** ** Worlds to run the manager in *)

Definition no_faults (_ : op) : list bool := [].

Definition world0 : World := MkWorld 0 ∅ [] 0 {[ "dev-1" := -2 ]} no_faults [].

(** The same world with other faults to come, and after some time. *)
Definition with_faults (f : op -> list bool) (w : World) : World := set_faults f w.

Definition fault_on (o : op) (l : list bool) (o' : op) : list bool :=
  if op_eqb o o' then l else [].

Definition elapse (ms : Z) (w : World) : World := set_now (w_now w + ms) w.

Definition fresh_trace (w : World) : World :=
  MkWorld (w_now w) (w_store w) (w_queue w) (w_sent w) (w_devices w) (w_faults w) [].

Definition after {A} (p : Promise A) (w : World) : World := snd (p w).

(** The log entries that running [p] in [w] adds. *)
Definition events {A} (p : Promise A) (w : World) : list event :=
  drop (length (w_trace w)) (w_trace (after p w)).

(** ** Descriptions of runs, statements and worlds for the proofs *)

(** The message [updateDeviceModel] reports a rejected patch with. *)
Definition update_context : option string :=
  Some "DeviceStateManager: Error updating the API with the device new state.".

(** The deletion a scheduling calls: of the message the record read names. *)
Definition deletion_events (v : option record_text) (ok : bool) : list event :=
  match v with
  | Some (RecordJson id _) => if truthy id then [EvDelete id ok] else []
  | _ => []
  end.

(** The calls a scheduling makes, in their order: the read, then the
    deletion of the message the record names, then one send, then the write
    of the record.  A rejected read or send, or a record that does not
    parse, ends the chain; a rejected deletion does not. *)
Definition schedule_events
  (uuid : string) (currentState nextState : DeviceOnlineStates) (delay : Z) (w : World)
  : list event :=
  let key := record_key uuid in
  if fails RedisGet w then [EvGet key false]
  else
    EvGet key true ::
    match live_value key w with
    | Some RecordInvalid => []
    | v =>
        deletion_events v (negb (fails QueueDelete w)) ++
        (let message := MessageJson uuid (state_value nextState) in
         if fails QueueSend w then [EvSend message delay false]
         else [EvSend message delay true;
               EvSet key (RecordJson (message_id (w_sent w)) (state_value currentState))
                 (delay + 5) (negb (fails RedisSet w))])
    end.

(** The outcome of a scheduling. *)
Definition schedule_outcome (uuid : string) (w : World) : outcome string :=
  if fails RedisGet w then Rejected (CallFailed RedisGet)
  else
    match live_value (record_key uuid) w with
    | Some RecordInvalid => Rejected ParseError
    | _ =>
        if fails QueueSend w then Rejected (CallFailed QueueSend)
        else if fails RedisSet w then Rejected (CallFailed RedisSet)
        else Fulfilled "OK"
    end.

(** The queue after a scheduling: the message the record names is gone when
    its deletion was fulfilled, and the new message is there when the send
    was reached and fulfilled. *)
Definition schedule_queue
  (uuid : string) (nextState : DeviceOnlineStates) (delay : Z) (w : World) : list qmsg :=
  if fails RedisGet w then w_queue w
  else
    match live_value (record_key uuid) w with
    | Some RecordInvalid => w_queue w
    | v =>
        let q :=
          match v with
          | Some (RecordJson id _) =>
              if truthy id && negb (fails QueueDelete w) then without id (w_queue w)
              else w_queue w
          | _ => w_queue w
          end in
        if fails QueueSend w then q
        else q ++ [QMsg (message_id (w_sent w)) (MessageJson uuid (state_value nextState))
                     (w_now w + delay * 1000)]
    end.

(** What the intake decides before it schedules: whether the device is to be
    written online. *)
Definition wants_online (uuid : string) (w : World) : bool :=
  if fails RedisGet w then true
  else
    match live_value (record_key uuid) w with
    | Some (RecordJson id currentState) =>
        negb (truthy id) || negb (currentState =? state_value Online)
    | _ => true
    end.

(** The world in which the intake reaches its scheduling step. *)
Definition intake_world (uuid : string) (w : World) : World :=
  let w1 := log (EvGet (record_key uuid) (negb (fails RedisGet w))) (next_fault RedisGet w) in
  if wants_online uuid w then after (deviceOnline uuid) w1 else w1.

(** The calls the intake makes before it schedules. *)
Definition intake_events (uuid : string) (w : World) : list event :=
  EvGet (record_key uuid) (negb (fails RedisGet w)) ::
  (if wants_online uuid w then
     if fails ApiPatch w
     then [EvPatch uuid (state_value Online) None;
           EvReport (CallFailed ApiPatch) update_context]
     else [EvPatch uuid (state_value Online)
             (Some (fst (patch_filtered uuid (state_value Online) (w_devices w))))]
   else []).

(** Whether the second call of a kind from now is rejected: for the read,
    that is the read of the scheduling step of the intake. *)
Definition second_fails (o : op) (w : World) : bool :=
  match tail (w_faults w o) with
  | b :: _ => b
  | [] => false
  end.

(** The collaborator an entry of the log is a call to. *)
Definition event_op (e : event) : option op :=
  match e with
  | EvGet _ _ => Some RedisGet
  | EvSet _ _ _ _ => Some RedisSet
  | EvSend _ _ _ => Some QueueSend
  | EvReceive _ _ => Some QueueReceive
  | EvDelete _ _ => Some QueueDelete
  | EvPatch _ _ _ => Some ApiPatch
  | EvReport _ _ | EvDelay _ | EvUnhandled _ => None
  end.

(** A world in which the API rejects the next patch. *)
Definition online_write_fails : World := with_faults (fault_on ApiPatch [true]) world0.

(** The online write is the patch of the device to [Online]. *)
Definition online_write (uuid : string) (evs : list event) : Prop :=
  exists rows, EvPatch uuid (state_value Online) rows ∈ evs.

(** C1 as the specification has it: the online write is made exactly when
    the device has no record or its record is not in state Online. *)
Definition online_write_iff_no_online_record
  (uuid : string) (timeoutSeconds : Z) (w : World) : Prop :=
  online_write uuid (events (captureEventFor uuid timeoutSeconds) w) <->
  (live_value (record_key uuid) w = None \/
   exists id currentState,
     live_value (record_key uuid) w = Some (RecordJson id currentState) /\
     currentState <> state_value Online).

(** The world after a first heartbeat of dev-1. *)
Definition heartbeat_sent : World := fresh_trace (after (captureEventFor "dev-1" 5) world0).

(** C5 as the specification has it: whatever fails, the promise of the
    intake is fulfilled. *)
Definition intake_is_always_fulfilled (uuid : string) (timeoutSeconds : Z) (w : World) : Prop :=
  exists reply, fst (captureEventFor uuid timeoutSeconds w) = Fulfilled reply.

(** C9 as the specification has it: when the first read is rejected or the
    record does not parse, and nothing else is rejected, the online write is
    made, nothing is reported for the read, and the Timeout message is in the
    queue afterwards. *)
Definition unreadable_record_still_schedules
  (uuid : string) (timeoutSeconds : Z) (w : World) : Prop :=
  fails RedisGet w = true \/ live_value (record_key uuid) w = Some RecordInvalid ->
  second_fails RedisGet w = false -> fails QueueSend w = false ->
  fails RedisSet w = false -> fails ApiPatch w = false ->
  online_write uuid (events (captureEventFor uuid timeoutSeconds) w) /\
  (forall e ctx, EvReport e ctx ∉ events (captureEventFor uuid timeoutSeconds) w) /\
  exists m, m ∈ w_queue (after (captureEventFor uuid timeoutSeconds) w) /\
            m_message m = MessageJson uuid (state_value Timeout).

(** A world in which the record of dev-1 does not parse. *)
Definition broken_record : World :=
  set_store {[ record_key "dev-1" := Entry RecordInvalid 10000 ]} world0.

(** [adds P p]: running [p] appends entries to the log, all of them in [P]. *)
Definition adds {A} (P : event -> Prop) (p : Promise A) : Prop :=
  forall w, exists evs, w_trace (snd (p w)) = w_trace w ++ evs /\ Forall P evs.

(** The entries that are neither receives nor delays: all that handling a
    message adds. *)
Definition not_receive (e : event) : Prop :=
  match e with
  | EvReceive _ _ | EvDelay _ => False
  | _ => True
  end.

(** The message [consume] reports a rejected round with. *)
Definition consume_context : option string :=
  Some "DeviceStateManager ==> Error when consuming queue".

(** The receives of a log. *)
Definition is_receive (e : event) : bool :=
  match e with EvReceive _ _ => true | _ => false end.

(** The number of receives in a log. *)
Definition receives (evs : list event) : nat := length (List.filter is_receive evs).

(** C8 as the specification has it: after a failure of the queue the loop
    waits before it tries again. *)
Definition failure_is_followed_by_delay (grace : Z) (w : World) : Prop :=
  fails QueueReceive w = true -> exists ms, EvDelay ms ∈ events (consume_round grace) w.

(** The deletion that ends the handling, with the handler of line 215. *)
Definition delete_and_end (id : string) (w : World) : outcome unit * World :=
  if fails QueueDelete w
  then (Fulfilled tt,
        log (EvReport (CallFailed QueueDelete) None)
          (log (EvDelete id false) (next_fault QueueDelete w)))
  else (Fulfilled tt,
        log (EvDelete id true) (set_queue (without id (w_queue w)) (next_fault QueueDelete w))).

(** The entries of the write of a state. *)
Definition update_events (uuid : string) (s : DeviceOnlineStates) (w : World) : list event :=
  if fails ApiPatch w
  then [EvPatch uuid (state_value s) None; EvReport (CallFailed ApiPatch) update_context]
  else [EvPatch uuid (state_value s)
          (Some (fst (patch_filtered uuid (state_value s) (w_devices w))))].

(** The entries of the deletion that ends the handling of a message. *)
Definition delete_events (id : string) (failed : bool) : list event :=
  if failed then [EvDelete id false; EvReport (CallFailed QueueDelete) None]
  else [EvDelete id true].

(** The scheduling that the handling of a Timeout message starts and does
    not wait for. *)
Definition chained (grace : Z) (uuid : string) : Promise unit :=
  detached (scheduleChangeOfStateForDevice uuid Timeout Offline grace).

(** Its entries: a rejection of it reaches no handler. *)
Definition chained_events (grace : Z) (uuid : string) (w : World) : list event :=
  schedule_events uuid Timeout Offline grace w ++
  match schedule_outcome uuid w with
  | Fulfilled _ => []
  | Rejected e => [EvUnhandled e]
  end.

(** The world in which the Timeout message of the first heartbeat is due. *)
Definition timeout_due : World := elapse 5000 heartbeat_sent.

(** The world in which the message received is handled. *)
Definition received (m : qmsg) (w : World) : World :=
  log (EvReceive RSMQ_READ_TIMEOUT true)
    (set_queue (hide (m_id m) (w_now w + RSMQ_READ_TIMEOUT * 1000) (w_queue w))
       (next_fault QueueReceive w)).

(** The messages the consumer has a case for. *)
Definition expected (message : message_text) : Prop :=
  exists uuid s, (s = Timeout \/ s = Offline) /\ message = MessageJson uuid (state_value s).

(** C3 as the specification has it: a message that is neither a Timeout nor
    an Offline is reported and is in the queue no more after the round. *)
Definition unexpected_is_discarded (grace : Z) (w : World) (m : qmsg) : Prop :=
  fails QueueReceive w = false -> earliest (w_now w) (w_queue w) = Some m ->
  ~ expected (m_message m) ->
  (exists e ctx, EvReport e ctx ∈ events (consume_round grace) w) /\
  forall m', m' ∈ w_queue (after (consume_round grace) w) -> m_id m' <> m_id m.

(** A queue that holds a message asking for state Online. *)
Definition stray_message : World :=
  set_queue [QMsg "x1" (MessageJson "dev-1" (state_value Online)) 0] world0.

(** [precedes p q evs]: an entry in [p] comes before an entry in [q]. *)
Fixpoint precedes (p q : event -> bool) (evs : list event) : bool :=
  match evs with
  | [] => false
  | e :: l => (p e && existsb q l) || precedes p q l
  end.

(** The write of a state of a device, and the read of its record, which is
    the first call of a scheduling. *)
Definition is_write (uuid : string) (s : DeviceOnlineStates) (e : event) : bool :=
  match e with
  | EvPatch u st _ => String.eqb u uuid && (st =? state_value s)
  | _ => false
  end.

Definition is_read (uuid : string) (e : event) : bool :=
  match e with
  | EvGet key _ => String.eqb key (record_key uuid)
  | _ => false
  end.

(** C2 as the specification has it: the round that receives a Timeout
    message writes Timeout and then starts the scheduling of Offline. *)
Definition writes_then_schedules (grace : Z) (uuid : string) (w : World) : Prop :=
  precedes (is_write uuid Timeout) (is_read uuid) (events (consume_round grace) w) = true.

(** Whether a message is for a device. *)
Definition is_pending (uuid : string) (m : qmsg) : bool :=
  match m_message m with
  | MessageJson u _ => String.eqb u uuid
  | MessageInvalid => false
  end.

(** The messages of the queue that are for a device. *)
Definition pending (uuid : string) (q : list qmsg) : list qmsg :=
  List.filter (is_pending uuid) q.

(** The queue holds at most one message for the device. *)
Definition at_most_one_pending (uuid : string) (w : World) : Prop :=
  (length (pending uuid (w_queue w)) <= 1)%nat.

(** C4 as the specification has it: a scheduling leaves at most one message
    for the device in the queue. *)
Definition scheduling_keeps_one_pending
  (uuid : string) (currentState nextState : DeviceOnlineStates) (delay : Z) (w : World) : Prop :=
  at_most_one_pending uuid w ->
  at_most_one_pending uuid
    (after (scheduleChangeOfStateForDevice uuid currentState nextState delay) w).

(** Every message for the device is the one its live record names. *)
Definition named_by_record (uuid : string) (w : World) : Prop :=
  forall m, m ∈ pending uuid (w_queue w) ->
    m_id m <> "" /\
    exists currentState,
      live_value (record_key uuid) w = Some (RecordJson (m_id m) currentState).

(** The sends of a log. *)
Definition is_send_event (e : event) : bool :=
  match e with EvSend _ _ _ => true | _ => false end.

(** The number of sends in a log. *)
Definition sends (evs : list event) : nat := length (List.filter is_send_event evs).

(** ** getPollIntervalForDevice (lines 17-95) *)

(** The two resources the function asks the API for; the options of each
    request are fixed but for the uuid of the device. *)
Inductive config_resource := device_config_variable | application_config_variable.

Section PollInterval.

(** [DEFAULT_SUPERVISOR_POLL_INTERVAL] comes from lib/env-vars. *)
Variable DEFAULT_SUPERVISOR_POLL_INTERVAL : Z.

(** [resinApi.get] for a resource and a uuid: a promise of the values of the
    rows found, in their order. *)
Variable resinApi_get : config_resource -> string -> Promise (list Z).

Definition getPollIntervalForDevice (uuid : string) : Promise Z :=
  pollInterval <-
    (rows <- resinApi_get device_config_variable uuid ;;
     match rows with
     | value :: _ => resolve value
     | [] =>
         rows' <- resinApi_get application_config_variable uuid ;;
         match rows' with
         | value :: _ => resolve value
         | [] => resolve DEFAULT_SUPERVISOR_POLL_INTERVAL
         end
     end) ;;
  resolve (Z.max pollInterval DEFAULT_SUPERVISOR_POLL_INTERVAL).

End PollInterval.

(** An API that answers with fixed rows. *)
Definition answers (device application : list Z) (r : config_resource) (_ : string)
  : Promise (list Z) :=
  resolve (match r with
           | device_config_variable => device
           | application_config_variable => application
           end).

(** ** More descriptions of runs *)

(** The log entries between two worlds of a run. *)
Definition events_between (w w' : World) : list event :=
  drop (length (w_trace w)) (w_trace w').

(** The states written to the API in a log, with their devices. *)
Definition writes_of (evs : list event) : list (string * Z) :=
  flat_map (fun e => match e with EvPatch u s _ => [(u, s)] | _ => [] end) evs.

(** A world in which no call is going to be rejected. *)
Definition quiet (w : World) : Prop := forall o, w_faults w o = [].

(** [keeps_quiet p]: running [p] in a quiet world leaves a quiet world. *)
Definition keeps_quiet {A} (p : Promise A) : Prop :=
  forall w, quiet w -> quiet (snd (p w)).

(** What a heartbeat of a device may add to the log. *)
Definition heartbeat_event (uuid : string) (timeoutSeconds : Z) (e : event) : Prop :=
  match e with
  | EvGet key _ => key = record_key uuid
  | EvPatch u s _ => u = uuid /\ s = state_value Online
  | EvSend m d _ => m = MessageJson uuid (state_value Timeout) /\ d = timeoutSeconds
  | EvSet key v ttl _ =>
      key = record_key uuid /\ ttl = timeoutSeconds + 5 /\
      exists id, v = RecordJson id (state_value Online)
  | EvDelete _ _ | EvReport _ _ => True
  | EvReceive _ _ | EvDelay _ | EvUnhandled _ => False
  end.

(** What the consumer may add to the log. *)
Definition consumer_event (grace : Z) (e : event) : Prop :=
  match e with
  | EvGet key _ => exists u, key = record_key u
  | EvPatch _ s _ => s = state_value Timeout \/ s = state_value Offline
  | EvSend m d _ => (exists u, m = MessageJson u (state_value Offline)) /\ d = grace
  | EvSet key v ttl _ =>
      ttl = grace + 5 /\
      exists u id, key = record_key u /\ v = RecordJson id (state_value Timeout)
  | EvReceive vt _ => vt = RSMQ_READ_TIMEOUT
  | EvDelay ms => ms = 1000
  | EvDelete _ _ | EvReport _ _ | EvUnhandled _ => True
  end.

(** The ids of the queue are ids the queue has given out. *)
Definition issued (w : World) : Prop :=
  forall m, m ∈ w_queue w -> exists k, (k < w_sent w)%N /\ m_id m = message_id k.

(** The queue and the records agree: the ids of the queue are given out and
    differ, and every message for a device is the one its live record names. *)
Definition tracked (w : World) : Prop :=
  issued w /\ NoDup (map m_id (w_queue w)) /\ forall u, named_by_record u w.

(** Heartbeats of a device that come one after the other, each after a gap
    in milliseconds. *)
Fixpoint heartbeats (uuid : string) (timeoutSeconds : Z) (gaps : list Z) (w : World) : World :=
  match gaps with
  | [] => w
  | gap :: rest =>
      heartbeats uuid timeoutSeconds rest
        (after (captureEventFor uuid timeoutSeconds) (elapse gap w))
  end.

(** A device that is online and waited for: nothing is going to be rejected,
    the one message for the device in the queue is a Timeout message, and
    the record names it, says Online and lives for another
    [timeoutSeconds + 5] seconds at least. *)
Definition armed (uuid : string) (timeoutSeconds : Z) (w : World) : Prop :=
  quiet w /\
  exists id due expires,
    id <> "" /\
    pending uuid (w_queue w) = [QMsg id (MessageJson uuid (state_value Timeout)) due] /\
    w_store w !! record_key uuid = Some (Entry (RecordJson id (state_value Online)) expires) /\
    w_now w + (timeoutSeconds + 5) * 1000 <= expires.

(** ** Reasoning about runs *)

Lemma events_app (l x : list event) : drop (length l) (l ++ x) = x.
Proof. by rewrite drop_app_length. Qed.

Lemma events_nil (l : list event) : drop (length l) l = [].
Proof. by rewrite drop_all. Qed.

(** Brings the log of a run to the form [w_trace w ++ evs]. *)
Ltac flatten_trace :=
  repeat rewrite <- app_assoc; simpl app;
  try rewrite events_app; try rewrite events_nil.

(** *** updateDeviceModel *)

(** The helper is fulfilled whatever the API does: with [true] after the
    patch, with [false] after handing the rejection to [captureException]. *)
Lemma updateDeviceModel_run (uuid : string) (s : DeviceOnlineStates) (w : World) :
  updateDeviceModel uuid s w =
    if fails ApiPatch w
    then (Fulfilled false,
          log (EvReport (CallFailed ApiPatch) update_context)
            (log (EvPatch uuid (state_value s) None) (next_fault ApiPatch w)))
    else (Fulfilled true,
          log (EvPatch uuid (state_value s)
                 (Some (fst (patch_filtered uuid (state_value s) (w_devices w)))))
            (set_devices (snd (patch_filtered uuid (state_value s) (w_devices w)))
               (next_fault ApiPatch w))).
Proof.
  unfold updateDeviceModel, catch, and_then, resinApi_patch, external.
  destruct (fails ApiPatch w); [reflexivity|].
  cbn. destruct (patch_filtered _ _ _); reflexivity.
Qed.

Lemma patch_filtered_again (uuid : string) (s : Z) (d : gmap string Z) :
  patch_filtered uuid s (snd (patch_filtered uuid s d)) = (0%nat, snd (patch_filtered uuid s d)).
Proof.
  unfold patch_filtered.
  destruct (d !! uuid) as [old|] eqn:E.
  - destruct (Z.eqb_spec old s) as [->|Hne]; cbn.
    + rewrite E, Z.eqb_refl. reflexivity.
    + rewrite lookup_insert_eq, Z.eqb_refl. reflexivity.
  - cbn. rewrite E. reflexivity.
Qed.

Lemma patch_filtered_rows (uuid : string) (s : Z) (d : gmap string Z) :
  (fst (patch_filtered uuid s d) = 1%nat <-> exists old, d !! uuid = Some old /\ old <> s) /\
  (fst (patch_filtered uuid s d) = 0%nat -> snd (patch_filtered uuid s d) = d).
Proof.
  unfold patch_filtered.
  destruct (d !! uuid) as [old|] eqn:E.
  - destruct (Z.eqb_spec old s) as [->|Hne]; cbn; split; try done.
    + split; [done|]. intros (old & [= <-] & Hne). done.
    + split; [|done]. intros _. by exists old.
  - cbn. split; [|done]. split; [done|]. by intros (old & [=] & _).
Qed.

(** C7. Writing a state to the API is idempotent.  The patch is filtered on
    the state being different: it changes a row exactly when the device has
    another state, and leaves the devices as they are otherwise.  Once a
    write has gone through, writing the same state again changes no row and
    leaves every device as it is. *)
Theorem updateDeviceModel_idempotent (uuid : string) (s : DeviceOnlineStates) (w : World) :
  fails ApiPatch w = false ->
  let w1 := after (updateDeviceModel uuid s) w in
  let w2 := after (updateDeviceModel uuid s) w1 in
  (exists n,
     events (updateDeviceModel uuid s) w = [EvPatch uuid (state_value s) (Some n)] /\
     (n = 1%nat <-> exists old, w_devices w !! uuid = Some old /\ old <> state_value s) /\
     (n = 0%nat -> w_devices w1 = w_devices w)) /\
  w_devices w2 = w_devices w1 /\
  (fails ApiPatch w1 = false ->
   events (updateDeviceModel uuid s) w1 = [EvPatch uuid (state_value s) (Some 0%nat)]).
Proof.
  intros Hok w1 w2. subst w2 w1. unfold events, after.
  rewrite (updateDeviceModel_run uuid s w), Hok. cbn [snd].
  set (d1 := snd (patch_filtered uuid (state_value s) (w_devices w))).
  split; [|split].
  - exists (fst (patch_filtered uuid (state_value s) (w_devices w))).
    cbn. rewrite events_app.
    split; [reflexivity|]. apply patch_filtered_rows.
  - rewrite updateDeviceModel_run.
    destruct (fails ApiPatch (log _ _)); cbn; [reflexivity|].
    subst d1. rewrite patch_filtered_again. reflexivity.
  - intros Hok2. rewrite updateDeviceModel_run, Hok2. cbn.
    subst d1. rewrite patch_filtered_again. cbn. rewrite events_app. reflexivity.
Qed.

Lemma updateDeviceModel_idempotent_witness :
  fails ApiPatch world0 = false /\
  w_devices (after (updateDeviceModel "dev-1" Timeout)
               (after (updateDeviceModel "dev-1" Timeout) world0)) =
  w_devices (after (updateDeviceModel "dev-1" Timeout) world0).
Proof.
  split; [reflexivity|].
  apply (updateDeviceModel_idempotent "dev-1" Timeout world0). reflexivity.
Defined.

(** *** Running a chain by cases *)

(** Unfolds the chains down to the collaborators. *)
Ltac unfold_chains :=
  unfold events, after, captureEventFor, deviceOnline, updateDeviceModel,
    scheduleChangeOfStateForDevice, noop, detached,
    redis_getAsync, redis_setAsync, rsmq_sendMessageAsync, rsmq_deleteMessageAsync,
    rsmq_receiveMessageAsync, resinApi_patch, captureException, Bluebird_delay,
    parse_record, parse_message, and_then, catch, external, resolve, reject,
    fails, live_value in *;
  cbn in *.

(** Splits on what a run depends on: the faults to come, the record of the
    device, the state of the device. *)
Ltac split_run_step :=
  match goal with
  | H : w_faults ?w ?o = _ |- context [w_faults ?w ?o] => rewrite H
  | H : w_store ?w !! ?k = _ |- context [w_store ?w !! ?k] => rewrite H
  | H : (w_now ?w <? ?t) = _ |- context [w_now ?w <? ?t] => rewrite H
  | H : truthy ?s = _ |- context [truthy ?s] => rewrite H
  | H : patch_filtered ?u ?s ?d = _ |- context [patch_filtered ?u ?s ?d] => rewrite H
  | |- context [match w_faults ?w ?o with [] => _ | _ :: _ => _ end] =>
      let E := fresh "Hf" in destruct (w_faults w o) as [|[] ?] eqn:E
  | |- context [match tail ?l with [] => _ | _ :: _ => _ end] =>
      destruct l as [|? [|[] ?]]
  | |- context [match ?l with [] => _ | _ :: _ => _ end] =>
      is_var l; destruct l as [|[] ?]
  | |- context [match w_store ?w !! ?k with Some _ => _ | None => _ end] =>
      let E := fresh "Hrec" in destruct (w_store w !! k) as [[[] ?]|] eqn:E
  | |- context [if w_now ?w <? ?t then _ else _] =>
      let E := fresh "Hlive" in destruct (w_now w <? t) eqn:E
  | |- context [if truthy ?s then _ else _] =>
      let E := fresh "Hid" in destruct (truthy s) eqn:E
  | |- context [negb (truthy ?s)] =>
      let E := fresh "Hid" in destruct (truthy s) eqn:E
  | |- context [patch_filtered ?u ?s ?d] =>
      let E := fresh "Hpatch" in destruct (patch_filtered u s d) eqn:E
  end; cbn in *.

Ltac split_run := unfold_chains; repeat split_run_step.

(** *** scheduleChangeOfStateForDevice *)

Lemma scheduleChangeOfStateForDevice_events
  (uuid : string) (currentState nextState : DeviceOnlineStates) (delay : Z) (w : World) :
  events (scheduleChangeOfStateForDevice uuid currentState nextState delay) w =
  schedule_events uuid currentState nextState delay w.
Proof.
  unfold schedule_events, deletion_events.
  split_run; flatten_trace; try reflexivity.
Qed.

(** Every chain of the manager only adds to the log. *)
Lemma scheduleChangeOfStateForDevice_trace
  (uuid : string) (currentState nextState : DeviceOnlineStates) (delay : Z) (w : World) :
  w_trace (after (scheduleChangeOfStateForDevice uuid currentState nextState delay) w) =
  w_trace w ++ schedule_events uuid currentState nextState delay w.
Proof.
  unfold schedule_events, deletion_events.
  split_run; flatten_trace; try reflexivity; by rewrite app_nil_r.
Qed.

Lemma scheduleChangeOfStateForDevice_outcome
  (uuid : string) (currentState nextState : DeviceOnlineStates) (delay : Z) (w : World) :
  fst (scheduleChangeOfStateForDevice uuid currentState nextState delay w) =
  schedule_outcome uuid w.
Proof.
  unfold schedule_outcome. split_run; reflexivity.
Qed.

Lemma scheduleChangeOfStateForDevice_queue
  (uuid : string) (currentState nextState : DeviceOnlineStates) (delay : Z) (w : World) :
  w_queue (after (scheduleChangeOfStateForDevice uuid currentState nextState delay) w) =
  schedule_queue uuid nextState delay w.
Proof.
  unfold schedule_queue, without. split_run; reflexivity.
Qed.

(** The record is written when the whole chain is fulfilled, and only then. *)
Lemma scheduleChangeOfStateForDevice_store
  (uuid : string) (currentState nextState : DeviceOnlineStates) (delay : Z) (w : World) :
  w_store (after (scheduleChangeOfStateForDevice uuid currentState nextState delay) w) =
  match schedule_outcome uuid w with
  | Fulfilled _ =>
      <[record_key uuid :=
          Entry (RecordJson (message_id (w_sent w)) (state_value currentState))
            (w_now w + (delay + 5) * 1000)]> (w_store w)
  | Rejected _ => w_store w
  end.
Proof.
  unfold schedule_outcome. split_run; reflexivity.
Qed.

(** What a scheduling leaves alone. *)
Lemma scheduleChangeOfStateForDevice_frame
  (uuid : string) (currentState nextState : DeviceOnlineStates) (delay : Z) (w : World) :
  let w' := after (scheduleChangeOfStateForDevice uuid currentState nextState delay) w in
  w_now w' = w_now w /\ w_devices w' = w_devices w /\
  w_faults w' ApiPatch = w_faults w ApiPatch /\
  w_faults w' QueueReceive = w_faults w QueueReceive.
Proof.
  split_run; repeat split; try reflexivity; try assumption.
Qed.

(** *** captureEventFor *)

Lemma captureEventFor_run (uuid : string) (timeoutSeconds : Z) (w : World) :
  captureEventFor uuid timeoutSeconds w =
  scheduleChangeOfStateForDevice uuid Online Timeout timeoutSeconds (intake_world uuid w).
Proof.
  unfold captureEventFor, intake_world, wants_online, after, deviceOnline,
    and_then, catch, redis_getAsync, external, live_value, parse_record, resolve, reject.
  destruct (fails RedisGet w); cbn [negb fst snd is_some].
  - rewrite !updateDeviceModel_run. destruct (fails ApiPatch _); reflexivity.
  - destruct (w_store (next_fault RedisGet w) !! record_key uuid) as [[[id cur|] ex]|] eqn:E;
      cbn in E; rewrite E; cbn [e_value e_expires negb is_some];
      try destruct (w_now _ <? ex); cbn [fst snd is_some];
      try destruct (negb (truthy id) || negb (cur =? state_value Online));
      rewrite ?updateDeviceModel_run; try destruct (fails ApiPatch _); reflexivity.
Qed.

Lemma intake_world_trace (uuid : string) (w : World) :
  w_trace (intake_world uuid w) = w_trace w ++ intake_events uuid w.
Proof.
  unfold intake_world, intake_events, after, deviceOnline.
  destruct (wants_online uuid w); [|cbn; by destruct (fails RedisGet w)].
  rewrite updateDeviceModel_run.
  replace (fails ApiPatch (log _ (next_fault RedisGet w))) with (fails ApiPatch w)
    by reflexivity.
  destruct (fails ApiPatch w); cbn; by rewrite <- ?app_assoc.
Qed.

Lemma intake_world_frame (uuid : string) (w : World) :
  let w1 := intake_world uuid w in
  w_now w1 = w_now w /\ w_store w1 = w_store w /\ w_queue w1 = w_queue w /\
  w_sent w1 = w_sent w /\
  fails RedisGet w1 = second_fails RedisGet w /\
  fails QueueDelete w1 = fails QueueDelete w /\
  fails QueueSend w1 = fails QueueSend w /\
  fails RedisSet w1 = fails RedisSet w.
Proof.
  unfold intake_world, after, deviceOnline.
  destruct (wants_online uuid w); [rewrite updateDeviceModel_run|].
  - replace (fails ApiPatch (log _ (next_fault RedisGet w))) with (fails ApiPatch w)
      by reflexivity.
    destruct (fails ApiPatch w); cbn; repeat split; reflexivity.
  - cbn. repeat split; reflexivity.
Qed.

Lemma captureEventFor_events (uuid : string) (timeoutSeconds : Z) (w : World) :
  events (captureEventFor uuid timeoutSeconds) w =
  intake_events uuid w ++
  schedule_events uuid Online Timeout timeoutSeconds (intake_world uuid w).
Proof.
  unfold events, after. rewrite captureEventFor_run.
  pose proof (scheduleChangeOfStateForDevice_trace uuid Online Timeout timeoutSeconds
                (intake_world uuid w)) as Ht.
  unfold after in Ht. rewrite Ht, intake_world_trace, <- app_assoc.
  apply events_app.
Qed.

(** Membership in an explicit log. *)
Ltac elem_cases H :=
  repeat first
    [ apply elem_of_nil in H; contradiction
    | apply elem_of_app in H as [H|H]
    | apply elem_of_cons in H as [H|H]; [try discriminate H|] ].

Ltac elem_solve := repeat first [ apply list_elem_of_here | apply list_elem_of_further ].

(** A scheduling calls Redis and the queue, and nothing else. *)
Lemma schedule_events_ops
  (uuid : string) (currentState nextState : DeviceOnlineStates) (delay : Z) (w : World)
  (e : event) :
  e ∈ schedule_events uuid currentState nextState delay w ->
  event_op e <> Some ApiPatch /\ event_op e <> Some QueueReceive /\ event_op e <> None.
Proof.
  unfold schedule_events, deletion_events. intros H.
  destruct (fails RedisGet w).
  - elem_cases H; subst e; cbn; done.
  - destruct (live_value (record_key uuid) w) as [[id cur|]|];
      try destruct (truthy id); destruct (fails QueueSend w);
      elem_cases H; subst e; cbn; done.
Qed.

Lemma live_value_frame (key : string) (w w1 : World) :
  w_now w1 = w_now w -> w_store w1 = w_store w -> live_value key w1 = live_value key w.
Proof. unfold live_value. by intros -> ->. Qed.

Lemma intake_world_live (uuid key : string) (w : World) :
  live_value key (intake_world uuid w) = live_value key w.
Proof. apply live_value_frame; apply intake_world_frame. Qed.

(** The outcome of the intake is the outcome of its scheduling step. *)
Lemma captureEventFor_outcome (uuid : string) (timeoutSeconds : Z) (w : World) :
  fst (captureEventFor uuid timeoutSeconds w) =
  if second_fails RedisGet w then Rejected (CallFailed RedisGet)
  else
    match live_value (record_key uuid) w with
    | Some RecordInvalid => Rejected ParseError
    | _ =>
        if fails QueueSend w then Rejected (CallFailed QueueSend)
        else if fails RedisSet w then Rejected (CallFailed RedisSet)
        else Fulfilled "OK"
    end.
Proof.
  rewrite captureEventFor_run, scheduleChangeOfStateForDevice_outcome.
  unfold schedule_outcome. rewrite intake_world_live.
  destruct (intake_world_frame uuid w) as (_ & _ & _ & _ & -> & _ & -> & ->).
  reflexivity.
Qed.

(** The one error the intake reports is a rejected online write. *)
Lemma intake_events_reports (uuid : string) (w : World) (e : error) (ctx : option string) :
  EvReport e ctx ∈ intake_events uuid w ->
  e = CallFailed ApiPatch /\ ctx = update_context /\
  EvPatch uuid (state_value Online) None ∈ intake_events uuid w.
Proof.
  unfold intake_events. intros H.
  destruct (wants_online uuid w); [|elem_cases H].
  destruct (fails ApiPatch w); elem_cases H.
  injection H as -> ->. repeat split. elem_solve.
Qed.

Lemma captureEventFor_reports
  (uuid : string) (timeoutSeconds : Z) (w : World) (e : error) (ctx : option string) :
  EvReport e ctx ∈ events (captureEventFor uuid timeoutSeconds) w ->
  e = CallFailed ApiPatch /\ ctx = update_context /\
  EvPatch uuid (state_value Online) None ∈ events (captureEventFor uuid timeoutSeconds) w.
Proof.
  rewrite captureEventFor_events. intros H.
  apply elem_of_app in H as [H|H];
    [|apply schedule_events_ops in H as (_ & _ & H); by cbn in H].
  apply intake_events_reports in H as (-> & -> & H).
  repeat split. apply elem_of_app. by left.
Qed.

Lemma captureEventFor_queue (uuid : string) (timeoutSeconds : Z) (w : World) :
  w_queue (after (captureEventFor uuid timeoutSeconds) w) =
  schedule_queue uuid Timeout timeoutSeconds (intake_world uuid w).
Proof.
  unfold after at 1. rewrite captureEventFor_run.
  apply scheduleChangeOfStateForDevice_queue.
Qed.

Lemma captureEventFor_store (uuid : string) (timeoutSeconds : Z) (w : World) :
  w_store (after (captureEventFor uuid timeoutSeconds) w) =
  match fst (captureEventFor uuid timeoutSeconds w) with
  | Fulfilled _ =>
      <[record_key uuid :=
          Entry (RecordJson (message_id (w_sent w)) (state_value Online))
            (w_now w + (timeoutSeconds + 5) * 1000)]> (w_store w)
  | Rejected _ => w_store w
  end.
Proof.
  unfold after at 1. rewrite captureEventFor_run.
  pose proof (scheduleChangeOfStateForDevice_store uuid Online Timeout timeoutSeconds
                (intake_world uuid w)) as H.
  unfold after in H. rewrite H, scheduleChangeOfStateForDevice_outcome.
  destruct (intake_world_frame uuid w) as (-> & -> & _ & -> & _). reflexivity.
Qed.

(** When nothing the scheduling does is rejected and the record parses, the
    intake is fulfilled and the Timeout message is in the queue. *)
Lemma captureEventFor_enqueues (uuid : string) (timeoutSeconds : Z) (w : World) :
  second_fails RedisGet w = false -> fails QueueSend w = false ->
  fails RedisSet w = false -> live_value (record_key uuid) w <> Some RecordInvalid ->
  fst (captureEventFor uuid timeoutSeconds w) = Fulfilled "OK" /\
  QMsg (message_id (w_sent w)) (MessageJson uuid (state_value Timeout))
    (w_now w + timeoutSeconds * 1000)
    ∈ w_queue (after (captureEventFor uuid timeoutSeconds) w).
Proof.
  intros Hget Hsend Hset Hrec. split.
  - rewrite captureEventFor_outcome, Hget, Hsend, Hset.
    by destruct (live_value (record_key uuid) w) as [[]|].
  - rewrite captureEventFor_queue. unfold schedule_queue.
    rewrite intake_world_live.
    destruct (intake_world_frame uuid w) as (-> & _ & -> & -> & -> & -> & -> & _).
    rewrite Hget, Hsend.
    destruct (live_value (record_key uuid) w) as [[]|]; try done;
      apply elem_of_app; right; apply list_elem_of_here.
Qed.

(** C6. Every heartbeat runs the scheduling of a Timeout after
    [timeoutSeconds]: whatever the read and the online write do, the intake
    goes on as [scheduleChangeOfStateForDevice uuid Online Timeout
    timeoutSeconds], in a world whose clock, records and queue are those it
    started with.  A rejected online write is reported and followed by the
    read the scheduling starts with; and when nothing the scheduling does is
    rejected, the Timeout message is in the queue afterwards, whether the
    online write went through or not. *)
Theorem captureEventFor_always_schedules (uuid : string) (timeoutSeconds : Z) (w : World) :
  (exists w1,
     captureEventFor uuid timeoutSeconds w =
       scheduleChangeOfStateForDevice uuid Online Timeout timeoutSeconds w1 /\
     w_now w1 = w_now w /\ w_store w1 = w_store w /\ w_queue w1 = w_queue w) /\
  (EvPatch uuid (state_value Online) None ∈ events (captureEventFor uuid timeoutSeconds) w ->
   exists ok1 ok2 rest,
     events (captureEventFor uuid timeoutSeconds) w =
       [EvGet (record_key uuid) ok1;
        EvPatch uuid (state_value Online) None;
        EvReport (CallFailed ApiPatch) update_context;
        EvGet (record_key uuid) ok2] ++ rest) /\
  (second_fails RedisGet w = false -> fails QueueSend w = false ->
   fails RedisSet w = false -> live_value (record_key uuid) w <> Some RecordInvalid ->
   fst (captureEventFor uuid timeoutSeconds w) = Fulfilled "OK" /\
   QMsg (message_id (w_sent w)) (MessageJson uuid (state_value Timeout))
     (w_now w + timeoutSeconds * 1000)
     ∈ w_queue (after (captureEventFor uuid timeoutSeconds) w)).
Proof.
  split; [|split].
  - exists (intake_world uuid w). split; [apply captureEventFor_run|].
    destruct (intake_world_frame uuid w) as (? & ? & ? & _). done.
  - rewrite captureEventFor_events. intros H.
    apply elem_of_app in H as [H|H];
      [|apply schedule_events_ops in H as (H & _); by cbn in H].
    unfold intake_events in *.
    destruct (wants_online uuid w); [|elem_cases H].
    destruct (fails ApiPatch w); [|elem_cases H].
    unfold schedule_events.
    destruct (fails RedisGet (intake_world uuid w)); cbn; eauto.
  - apply captureEventFor_enqueues.
Qed.

Lemma captureEventFor_always_schedules_witness :
  EvPatch "dev-1" (state_value Online) None ∈ events (captureEventFor "dev-1" 5) online_write_fails /\
  fst (captureEventFor "dev-1" 5 online_write_fails) = Fulfilled "OK" /\
  QMsg "m0" (MessageJson "dev-1" (-1)) 5000
    ∈ w_queue (after (captureEventFor "dev-1" 5) online_write_fails).
Proof.
  split; [vm_compute; elem_solve|].
  apply (captureEventFor_always_schedules "dev-1" 5 online_write_fails);
    vm_compute; congruence.
Defined.

Lemma truthy_false (s : string) : truthy s = false <-> s = "".
Proof.
  unfold truthy. destruct (String.eqb_spec s ""); cbn; split; congruence.
Qed.

Lemma wants_online_spec (uuid : string) (w : World) :
  wants_online uuid w = true <->
  (fails RedisGet w = true \/
   match live_value (record_key uuid) w with
   | Some (RecordJson id currentState) => id = "" \/ currentState <> state_value Online
   | Some RecordInvalid => True
   | None => True
   end).
Proof.
  unfold wants_online. destruct (fails RedisGet w); [by intuition|].
  destruct (live_value (record_key uuid) w) as [[id cur|]|]; [|by intuition..].
  rewrite orb_true_iff, !negb_true_iff, truthy_false, Z.eqb_neq.
  split; [by right|]. by intros [|].
Qed.

Lemma online_write_iff_wanted (uuid : string) (timeoutSeconds : Z) (w : World) :
  online_write uuid (events (captureEventFor uuid timeoutSeconds) w) <->
  wants_online uuid w = true.
Proof.
  unfold online_write. rewrite captureEventFor_events. unfold intake_events. split.
  - intros (rows & H). apply elem_of_app in H as [H|H];
      [|apply schedule_events_ops in H as (H & _); by cbn in H].
    destruct (wants_online uuid w); [done|]. elem_cases H.
  - intros ->. destruct (fails ApiPatch w); eexists; apply elem_of_app; left; elem_solve.
Qed.

(** The record says Online and names a message, the read of it is rejected:
    the online write is made all the same. *)
Lemma online_write_despite_online_record :
  ~ online_write_iff_no_online_record "dev-1" 5
      (with_faults (fault_on RedisGet [true]) heartbeat_sent).
Proof.
  intros [H _].
  destruct H as [H|(id & cur & H & Hne)].
  - exists (Some 0%nat). vm_compute. elem_solve.
  - vm_compute in H. discriminate H.
  - vm_compute in H. injection H as <- <-. by apply Hne.
Qed.

(** C1 (amended). The online write is made exactly when the read of the
    record is rejected, or the device has no live record, or the record does
    not parse, or it names no message, or its state is not Online; in
    particular none is made when the record read names a message and says
    Online. *)
Theorem captureEventFor_online_write (uuid : string) (timeoutSeconds : Z) (w : World) :
  online_write uuid (events (captureEventFor uuid timeoutSeconds) w) <->
  (fails RedisGet w = true \/
   match live_value (record_key uuid) w with
   | Some (RecordJson id currentState) => id = "" \/ currentState <> state_value Online
   | Some RecordInvalid => True
   | None => True
   end).
Proof.
  rewrite online_write_iff_wanted. apply wants_online_spec.
Qed.


Lemma schedule_events_written
  (uuid : string) (currentState nextState : DeviceOnlineStates) (delay : Z) (w : World) :
  (exists v ttl, EvSet (record_key uuid) v ttl true
                   ∈ schedule_events uuid currentState nextState delay w) <->
  schedule_outcome uuid w = Fulfilled "OK".
Proof.
  unfold schedule_events, schedule_outcome, deletion_events.
  destruct (fails RedisGet w).
  { split; [intros (v & ttl & H); elem_cases H | done]. }
  destruct (live_value (record_key uuid) w) as [[id cur|]|];
    try destruct (truthy id); destruct (fails QueueSend w); destruct (fails RedisSet w); cbn;
    (split; [intros (v & ttl & H); elem_cases H; try done | try done; intros _]);
    do 2 eexists; elem_solve.
Qed.



(** The record does not parse and nothing is rejected: the intake is
    rejected and has sent no message. *)
Lemma unparsable_record_blocks_scheduling :
  ~ unreadable_record_still_schedules "dev-1" 5 broken_record.
Proof.
  intros H.
  destruct (H (or_intror eq_refl) eq_refl eq_refl eq_refl eq_refl) as (_ & _ & m & Hm & _).
  vm_compute in Hm. elem_cases Hm.
Qed.

(** C9 (amended). A rejected first read is ignored without a report: the
    online write is made and the scheduling is run, so that the Timeout
    message is in the queue when nothing the scheduling does is rejected and
    the record it reads parses.  A record that does not parse is ignored by
    the first step in the same way and the online write is made, but the
    scheduling parses the record again: the intake is rejected, with nothing
    sent to the queue and no record written. *)
Theorem captureEventFor_unreadable_record (uuid : string) (timeoutSeconds : Z) (w : World) :
  let evs := events (captureEventFor uuid timeoutSeconds) w in
  let w' := after (captureEventFor uuid timeoutSeconds) w in
  (fails RedisGet w = true ->
   online_write uuid evs /\
   (forall ctx, EvReport (CallFailed RedisGet) ctx ∉ evs) /\
   (second_fails RedisGet w = false -> fails QueueSend w = false ->
    fails RedisSet w = false -> live_value (record_key uuid) w <> Some RecordInvalid ->
    fst (captureEventFor uuid timeoutSeconds w) = Fulfilled "OK" /\
    QMsg (message_id (w_sent w)) (MessageJson uuid (state_value Timeout))
      (w_now w + timeoutSeconds * 1000) ∈ w_queue w')) /\
  (fails RedisGet w = false -> live_value (record_key uuid) w = Some RecordInvalid ->
   online_write uuid evs /\
   (forall ctx, EvReport ParseError ctx ∉ evs) /\
   (exists e, fst (captureEventFor uuid timeoutSeconds w) = Rejected e) /\
   w_queue w' = w_queue w /\ w_store w' = w_store w).
Proof.
  intros evs w'. subst evs w'. split.
  - intros Hfail. split; [|split].
    + apply online_write_iff_wanted. unfold wants_online. by rewrite Hfail.
    + intros ctx H. by apply captureEventFor_reports in H as (? & _).
    + apply captureEventFor_enqueues.
  - intros Hread Hrec. split; [|split; [|split; [|split]]].
    + apply online_write_iff_wanted. unfold wants_online. by rewrite Hread, Hrec.
    + intros ctx H. by apply captureEventFor_reports in H as (? & _).
    + rewrite captureEventFor_outcome, Hrec. destruct (second_fails RedisGet w); eauto.
    + rewrite captureEventFor_queue. unfold schedule_queue.
      rewrite intake_world_live, Hrec.
      destruct (intake_world_frame uuid w) as (_ & _ & -> & _).
      by destruct (fails RedisGet (intake_world uuid w)).
    + rewrite captureEventFor_store, captureEventFor_outcome, Hrec.
      by destruct (second_fails RedisGet w).
Qed.

Lemma captureEventFor_unreadable_record_witness :
  (fails RedisGet (with_faults (fault_on RedisGet [true]) heartbeat_sent) = true /\
   online_write "dev-1"
     (events (captureEventFor "dev-1" 5) (with_faults (fault_on RedisGet [true]) heartbeat_sent))) /\
  (live_value (record_key "dev-1") broken_record = Some RecordInvalid /\
   w_queue (after (captureEventFor "dev-1" 5) broken_record) = w_queue broken_record).
Proof.
  split; (split; [reflexivity|]).
  - destruct (captureEventFor_unreadable_record "dev-1" 5
                (with_faults (fault_on RedisGet [true]) heartbeat_sent)) as [H _].
    apply H. reflexivity.
  - destruct (captureEventFor_unreadable_record "dev-1" 5 broken_record) as [_ H].
    apply H; reflexivity.
Defined.

(** *** What a chain adds to the log *)

Section Adds.
Context (P : event -> Prop).

Lemma adds_resolve {A} (a : A) : adds P (resolve a).
Proof. intros w. exists []. by rewrite app_nil_r. Qed.

Lemma adds_reject {A} (e : error) : adds P (@reject A e).
Proof. intros w. exists []. by rewrite app_nil_r. Qed.

Lemma adds_and_then {A B} (p : Promise A) (f : A -> Promise B) :
  adds P p -> (forall a, adds P (f a)) -> adds P (and_then p f).
Proof.
  intros Hp Hf w. unfold and_then.
  destruct (Hp w) as (e1 & H1 & F1). destruct (p w) as [[a|e] w1]; cbn in *.
  - destruct (Hf a w1) as (e2 & H2 & F2). exists (e1 ++ e2).
    rewrite H2, H1, app_assoc. split; [done|]. by apply Forall_app.
  - by exists e1.
Qed.

Lemma adds_catch {A} (p : Promise A) (h : error -> Promise A) :
  adds P p -> (forall e, adds P (h e)) -> adds P (catch p h).
Proof.
  intros Hp Hh w. unfold catch.
  destruct (Hp w) as (e1 & H1 & F1). destruct (p w) as [[a|e] w1]; cbn in *.
  - by exists e1.
  - destruct (Hh e w1) as (e2 & H2 & F2). exists (e1 ++ e2).
    rewrite H2, H1, app_assoc. split; [done|]. by apply Forall_app.
Qed.

Lemma adds_detached {A} (p : Promise A) :
  adds P p -> (forall e, P (EvUnhandled e)) -> adds P (detached p).
Proof.
  intros Hp Hu w. unfold detached.
  destruct (Hp w) as (e1 & H1 & F1). destruct (p w) as [[a|e] w1]; cbn in *.
  - by exists e1.
  - exists (e1 ++ [EvUnhandled e]). rewrite H1, app_assoc. split; [done|].
    apply Forall_app. split; [done|]. by apply Forall_singleton.
Qed.

Lemma adds_external {A} (o : op) (ev : option A -> event) (run : World -> A * World) :
  (forall r, P (ev r)) -> (forall w, w_trace (snd (run w)) = w_trace w) ->
  adds P (external o ev run).
Proof.
  intros Hev Hrun w. unfold external. destruct (fails o w).
  - exists [ev None]. split; [done|]. by apply Forall_singleton.
  - specialize (Hrun (next_fault o w)).
    destruct (run (next_fault o w)) as [a w2]. cbn in *.
    exists [ev (Some a)]. rewrite Hrun. split; [done|]. by apply Forall_singleton.
Qed.

Lemma adds_captureException (e : error) (ctx : option string) :
  P (EvReport e ctx) -> adds P (captureException e ctx).
Proof. intros H w. exists [EvReport e ctx]. split; [done|]. by apply Forall_singleton. Qed.

Lemma adds_delay (ms : Z) : P (EvDelay ms) -> adds P (Bluebird_delay ms).
Proof. intros H w. exists [EvDelay ms]. split; [done|]. by apply Forall_singleton. Qed.
End Adds.

Lemma adds_events {A} (P : event -> Prop) (p : Promise A) (w : World) :
  adds P p ->
  w_trace (after p w) = w_trace w ++ events p w /\ Forall P (events p w).
Proof.
  intros H. destruct (H w) as (evs & Ht & F). unfold events, after.
  rewrite Ht, events_app. done.
Qed.

Ltac adds_step :=
  lazymatch goal with
  | |- adds _ (and_then _ _) => apply adds_and_then; [|intros ?]
  | |- adds _ (catch _ _) => apply adds_catch; [|intros ?]
  | |- adds _ (detached _) => apply adds_detached; [|intros ?; done]
  | |- adds _ (resolve _) => apply adds_resolve
  | |- adds _ (reject _) => apply adds_reject
  | |- adds _ (noop _) => apply adds_resolve
  | |- adds _ (captureException _ _) => apply adds_captureException; done
  | |- adds _ (Bluebird_delay _) => apply adds_delay; done
  | |- adds _ (external _ _ _) =>
      apply adds_external; [intros ?; done | intros ?; try reflexivity]
  | |- adds _ (if ?b then _ else _) => destruct b
  | |- adds _ (match ?x with _ => _ end) => destruct x
  end.

Lemma adds_updateDeviceModel (uuid : string) (s : DeviceOnlineStates) :
  adds not_receive (updateDeviceModel uuid s).
Proof.
  unfold updateDeviceModel, resinApi_patch. repeat adds_step.
  cbn. by destruct (patch_filtered _ _ _).
Qed.

Lemma adds_delete (id : string) : adds not_receive (rsmq_deleteMessageAsync id).
Proof. unfold rsmq_deleteMessageAsync. repeat adds_step. Qed.

Lemma adds_schedule
  (uuid : string) (currentState nextState : DeviceOnlineStates) (delay : Z) :
  adds not_receive (scheduleChangeOfStateForDevice uuid currentState nextState delay).
Proof.
  unfold scheduleChangeOfStateForDevice, redis_getAsync, redis_setAsync,
    rsmq_sendMessageAsync, rsmq_deleteMessageAsync, parse_record.
  repeat adds_step.
Qed.

Lemma adds_handle (grace : Z) (id : string) (message : message_text) :
  adds not_receive (handle grace id message).
Proof.
  unfold handle, dispatch, parse_message, rsmq_deleteMessageAsync.
  repeat adds_step; first [apply adds_updateDeviceModel | apply adds_schedule].
Qed.

(** *** consume *)

(** Handling a message is fulfilled whatever happens: its last handler is
    [captureException]. *)
Lemma handle_fulfilled (grace : Z) (id : string) (message : message_text) (w : World) :
  fst (handle grace id message w) = Fulfilled tt.
Proof.
  unfold handle, catch, captureException.
  destruct (and_then _ _ w) as [[[]|e] w1]; reflexivity.
Qed.

(** One round, by cases on what the queue answers. *)
Lemma consume_round_run (grace : Z) (w : World) :
  consume_round grace w =
  if fails QueueReceive w then
    (Fulfilled tt,
     log (EvReport (CallFailed QueueReceive) consume_context)
       (log (EvReceive RSMQ_READ_TIMEOUT false) (next_fault QueueReceive w)))
  else
    match earliest (w_now w) (w_queue w) with
    | Some m =>
        handle grace (m_id m) (m_message m)
          (log (EvReceive RSMQ_READ_TIMEOUT true)
             (set_queue (hide (m_id m) (w_now w + RSMQ_READ_TIMEOUT * 1000) (w_queue w))
                (next_fault QueueReceive w)))
    | None =>
        (Fulfilled tt,
         log (EvDelay 1000)
           (set_now (w_now w + 1000)
              (log (EvReceive RSMQ_READ_TIMEOUT true) (next_fault QueueReceive w))))
    end.
Proof.
  unfold consume_round, catch, and_then, rsmq_receiveMessageAsync, external.
  destruct (fails QueueReceive w); [reflexivity|].
  cbn [w_now w_queue next_fault set_faults].
  destruct (earliest (w_now w) (w_queue w)) as [m|]; cbn; [|reflexivity].
  pose proof (handle_fulfilled grace (m_id m) (m_message m)
                (log (EvReceive RSMQ_READ_TIMEOUT true)
                   (set_queue (hide (m_id m) (w_now w + RSMQ_READ_TIMEOUT * 1000) (w_queue w))
                      (next_fault QueueReceive w)))) as H.
  cbn in H.
  destruct (handle _ _ _ _) as [[[]|e] w1]; [reflexivity|discriminate H].
Qed.

Lemma consume_round_fulfilled (grace : Z) (w : World) :
  fst (consume_round grace w) = Fulfilled tt.
Proof.
  rewrite consume_round_run. destruct (fails QueueReceive w); [reflexivity|].
  destruct (earliest _ _); [apply handle_fulfilled|reflexivity].
Qed.

Lemma receives_app (l1 l2 : list event) : receives (l1 ++ l2) = (receives l1 + receives l2)%nat.
Proof. unfold receives. by rewrite List.filter_app, length_app. Qed.

Lemma receives_none (evs : list event) : Forall not_receive evs -> receives evs = 0%nat.
Proof.
  unfold receives. induction 1 as [|e l He _ IH]; [reflexivity|].
  cbn. destruct e; cbn; try exact IH. destruct He.
Qed.

Lemma delays_none (evs : list event) (ms : Z) : Forall not_receive evs -> EvDelay ms ∉ evs.
Proof.
  intros F H. rewrite Forall_forall in F. exact (F _ H).
Qed.

(** A round makes one receive, and waits only when it found no message. *)
Lemma consume_round_trace (grace : Z) (w : World) :
  exists evs,
    w_trace (after (consume_round grace) w) = w_trace w ++ evs /\ receives evs = 1%nat /\
    (forall ms,
       EvDelay ms ∈ evs <->
       ms = 1000 /\ fails QueueReceive w = false /\ earliest (w_now w) (w_queue w) = None).
Proof.
  unfold after. rewrite consume_round_run. destruct (fails QueueReceive w).
  - eexists. cbn. rewrite <- app_assoc. split; [reflexivity|]. split; [reflexivity|].
    intros ms. split; [intros H; elem_cases H | by intros (_ & ? & _)].
  - destruct (earliest _ _) as [m|].
    + match goal with |- context [handle ?g ?i ?t ?w0] =>
        destruct (adds_handle g i t w0) as (evs & Ht & F) end.
      exists (EvReceive RSMQ_READ_TIMEOUT true :: evs).
      rewrite Ht. cbn. rewrite <- app_assoc. split; [reflexivity|]. split.
      * change (S (receives evs) = 1%nat). by rewrite receives_none.
      * intros ms. split; [|by intros (_ & _ & ?)].
        intros H. apply elem_of_cons in H as [H|H]; [discriminate H|].
        by apply delays_none in H.
    + eexists. cbn. rewrite <- app_assoc. split; [reflexivity|]. split; [reflexivity|].
      intros ms. split; [|intros (-> & _); elem_solve].
      intros H. elem_cases H. by injection H as ->.
Qed.

Lemma consume_rounds (grace : Z) (n : nat) (w : World) :
  fst (consume grace n w) = Fulfilled tt /\
  exists evs, w_trace (after (consume grace n) w) = w_trace w ++ evs /\ receives evs = n.
Proof.
  revert w. induction n as [|n IH]; intros w.
  - split; [reflexivity|]. exists []. by rewrite app_nil_r.
  - cbn [consume]. unfold after, and_then.
    pose proof (consume_round_fulfilled grace w) as Hr.
    destruct (consume_round_trace grace w) as (e1 & Ht1 & Hn1 & _). unfold after in Ht1.
    destruct (consume_round grace w) as [[[]|e] w1]; [|discriminate Hr]. cbn in Ht1.
    destruct (IH w1) as (Hf & e2 & Ht2 & Hn2). split; [exact Hf|].
    exists (e1 ++ e2). unfold after in Ht2.
    rewrite Ht2, Ht1, app_assoc, receives_app, Hn1, Hn2. done.
Qed.

(** The receive is rejected: the round reports it and ends, with no delay
    before the next round. *)
Lemma consume_retries_at_once :
  ~ failure_is_followed_by_delay 2 (with_faults (fault_on QueueReceive [true]) world0).
Proof.
  intros H. destruct (H eq_refl) as (ms & Hin).
  vm_compute in Hin. elem_cases Hin.
Qed.

(** C8 (amended). The loop never ends: a round is fulfilled whatever
    happens, so that the next round is always started, and [n] rounds make
    [n] receives, for every [n].  A round that finds no message to receive
    waits one second, and no other round waits.  A round whose receive is
    rejected reports the error and ends at once: nothing is waited before the
    next round. *)
Theorem consume_never_stops (grace : Z) :
  (forall w, fst (consume_round grace w) = Fulfilled tt) /\
  (forall n w,
     fst (consume grace n w) = Fulfilled tt /\
     receives (events (consume grace n) w) = n) /\
  (forall w,
     fails QueueReceive w = false -> earliest (w_now w) (w_queue w) = None ->
     events (consume_round grace) w = [EvReceive RSMQ_READ_TIMEOUT true; EvDelay 1000] /\
     w_now (after (consume_round grace) w) = w_now w + 1000) /\
  (forall w ms,
     EvDelay ms ∈ events (consume_round grace) w <->
     ms = 1000 /\ fails QueueReceive w = false /\ earliest (w_now w) (w_queue w) = None) /\
  (forall w,
     fails QueueReceive w = true ->
     events (consume_round grace) w =
       [EvReceive RSMQ_READ_TIMEOUT false;
        EvReport (CallFailed QueueReceive) consume_context] /\
     w_now (after (consume_round grace) w) = w_now w).
Proof.
  split; [apply consume_round_fulfilled|]. split; [|split; [|split]].
  - intros n w. destruct (consume_rounds grace n w) as (Hf & evs & Ht & Hn).
    split; [exact Hf|]. unfold events. by rewrite Ht, events_app.
  - intros w Hok Hnone. unfold events, after.
    rewrite consume_round_run, Hok, Hnone. cbn.
    rewrite <- app_assoc, events_app. done.
  - intros w ms. destruct (consume_round_trace grace w) as (evs & Ht & _ & Hd).
    unfold events. rewrite Ht, events_app. apply Hd.
  - intros w Hfail. unfold events, after.
    rewrite consume_round_run, Hfail. cbn.
    rewrite <- app_assoc, events_app. done.
Qed.

Lemma consume_never_stops_witness :
  (fails QueueReceive world0 = false /\
   events (consume_round 2) world0 = [EvReceive RSMQ_READ_TIMEOUT true; EvDelay 1000]) /\
  (fails QueueReceive (with_faults (fault_on QueueReceive [true]) world0) = true /\
   w_now (after (consume_round 2) (with_faults (fault_on QueueReceive [true]) world0)) = 0).
Proof.
  destruct (consume_never_stops 2) as (_ & _ & Hidle & _ & Hfail).
  split; (split; [reflexivity|]).
  - apply Hidle; reflexivity.
  - apply (Hfail (with_faults (fault_on QueueReceive [true]) world0)). reflexivity.
Defined.

(** *** Handling a received message *)

(** Handling, by cases on the message. *)
Lemma handle_run (grace : Z) (id : string) (message : message_text) (w : World) :
  handle grace id message w =
  match message with
  | MessageInvalid => (Fulfilled tt, log (EvReport ParseError None) w)
  | MessageJson uuid nextState =>
      if nextState =? state_value Timeout then
        delete_and_end id
          (after (updateDeviceModel uuid Timeout)
             (after (detached (scheduleChangeOfStateForDevice uuid Timeout Offline grace)) w))
      else if nextState =? state_value Offline then
        delete_and_end id (after (updateDeviceModel uuid Offline) w)
      else (Fulfilled tt, log (EvReport (UnexpectedState nextState) None) w)
  end.
Proof.
  unfold handle, dispatch, delete_and_end, after, catch, and_then, parse_message,
    resolve, reject, captureException, rsmq_deleteMessageAsync, external.
  destruct message as [uuid ns|]; [|reflexivity]. cbn [fst snd].
  destruct (ns =? state_value Timeout).
  - destruct (detached _ w) as [[[]|e] w0] eqn:Hd; cbn [fst snd].
    + rewrite !updateDeviceModel_run. destruct (fails ApiPatch w0); cbn [fst snd is_some];
        match goal with |- context [fails QueueDelete ?x] => destruct (fails QueueDelete x) end;
        reflexivity.
    + unfold detached in Hd. destruct (scheduleChangeOfStateForDevice _ _ _ _ w) as [[] ?];
        discriminate Hd.
  - destruct (ns =? state_value Offline); [|reflexivity].
    rewrite !updateDeviceModel_run. destruct (fails ApiPatch w); cbn [fst snd is_some];
      match goal with |- context [fails QueueDelete ?x] => destruct (fails QueueDelete x) end;
      reflexivity.
Qed.

Lemma without_spec (id : string) (q : list qmsg) (m : qmsg) :
  m ∈ without id q <-> m ∈ q /\ m_id m <> id.
Proof.
  unfold without. rewrite !list_elem_of_In, List.filter_In, negb_true_iff.
  destruct (String.eqb_spec (m_id m) id); intuition congruence.
Qed.

(** The world in which the write of Timeout is made: the scheduling of
    Offline has been run and has left the API and the clock alone. *)
Lemma detached_schedule_frame
  (uuid : string) (currentState nextState : DeviceOnlineStates) (delay : Z) (w : World) :
  let p := scheduleChangeOfStateForDevice uuid currentState nextState delay in
  let w0 := after (detached p) w in
  w_trace w0 =
    w_trace w ++ schedule_events uuid currentState nextState delay w ++
    match schedule_outcome uuid w with
    | Fulfilled _ => []
    | Rejected e => [EvUnhandled e]
    end /\
  w_queue w0 = schedule_queue uuid nextState delay w /\
  w_now w0 = w_now w /\ w_devices w0 = w_devices w /\
  w_faults w0 ApiPatch = w_faults w ApiPatch.
Proof.
  intros p w0. subst p w0.
  pose proof (scheduleChangeOfStateForDevice_trace uuid currentState nextState delay w) as Ht.
  pose proof (scheduleChangeOfStateForDevice_outcome uuid currentState nextState delay w) as Ho.
  pose proof (scheduleChangeOfStateForDevice_queue uuid currentState nextState delay w) as Hq.
  destruct (scheduleChangeOfStateForDevice_frame uuid currentState nextState delay w)
    as (Hn & Hd & Hp & _).
  unfold after, detached in *.
  destruct (scheduleChangeOfStateForDevice _ _ _ _ w) as [[a|e] w1]; cbn in *;
    rewrite <- Ho, Ht; cbn; rewrite ?app_nil_r, <- ?app_assoc; done.
Qed.

Lemma update_then_delete (uuid : string) (s : DeviceOnlineStates) (id : string) (w : World) :
  let w2 := snd (delete_and_end id (after (updateDeviceModel uuid s) w)) in
  w_trace w2 = w_trace w ++ update_events uuid s w ++ delete_events id (fails QueueDelete w) /\
  w_queue w2 = (if fails QueueDelete w then w_queue w else without id (w_queue w)) /\
  w_now w2 = w_now w.
Proof.
  unfold after, delete_and_end, update_events, delete_events.
  rewrite updateDeviceModel_run.
  destruct (fails ApiPatch w); cbn [snd];
    match goal with |- context [fails QueueDelete ?x] =>
      change (fails QueueDelete x) with (fails QueueDelete w) end;
    destruct (fails QueueDelete w); cbn; rewrite <- ?app_assoc; done.
Qed.

(** The log of the handling of a message. *)
Lemma handle_events (grace : Z) (id : string) (message : message_text) (w : World) :
  events (handle grace id message) w =
  match message with
  | MessageInvalid => [EvReport ParseError None]
  | MessageJson uuid nextState =>
      if nextState =? state_value Timeout then
        chained_events grace uuid w ++ update_events uuid Timeout w ++
        delete_events id (fails QueueDelete (after (chained grace uuid) w))
      else if nextState =? state_value Offline then
        update_events uuid Offline w ++ delete_events id (fails QueueDelete w)
      else [EvReport (UnexpectedState nextState) None]
  end.
Proof.
  unfold events, after. rewrite handle_run.
  destruct message as [uuid ns|]; [|cbn; apply events_app].
  destruct (ns =? state_value Timeout); [|destruct (ns =? state_value Offline)].
  - fold (chained grace uuid).
    destruct (update_then_delete uuid Timeout id (after (chained grace uuid) w)) as (Ht & _).
    destruct (detached_schedule_frame uuid Timeout Offline grace w)
      as (Ht0 & _ & _ & Hd & Hp).
    unfold after in *. fold (chained grace uuid) in *. rewrite Ht, Ht0.
    unfold chained_events, update_events, fails. rewrite Hd, Hp.
    rewrite <- !app_assoc. apply events_app.
  - destruct (update_then_delete uuid Offline id w) as (Ht & _).
    unfold after in *. rewrite Ht. apply events_app.
  - cbn. apply events_app.
Qed.

(** The queue after the handling of a message. *)
Lemma handle_queue (grace : Z) (id : string) (message : message_text) (w : World) :
  w_queue (after (handle grace id message) w) =
  match message with
  | MessageInvalid => w_queue w
  | MessageJson uuid nextState =>
      if nextState =? state_value Timeout then
        let q := schedule_queue uuid Offline grace w in
        if fails QueueDelete (after (chained grace uuid) w) then q else without id q
      else if nextState =? state_value Offline then
        if fails QueueDelete w then w_queue w else without id (w_queue w)
      else w_queue w
  end.
Proof.
  unfold after. rewrite handle_run.
  destruct message as [uuid ns|]; [|reflexivity].
  destruct (ns =? state_value Timeout); [|destruct (ns =? state_value Offline)].
  - fold (chained grace uuid).
    destruct (update_then_delete uuid Timeout id (after (chained grace uuid) w)) as (_ & Hq & _).
    destruct (detached_schedule_frame uuid Timeout Offline grace w) as (_ & Hq0 & _).
    unfold after in *. fold (chained grace uuid) in *. rewrite Hq, Hq0. reflexivity.
  - destruct (update_then_delete uuid Offline id w) as (_ & Hq & _).
    unfold after in *. by rewrite Hq.
  - reflexivity.
Qed.



(** *** A round that receives a message *)

Lemma consume_round_received (grace : Z) (w : World) (m : qmsg) :
  fails QueueReceive w = false -> earliest (w_now w) (w_queue w) = Some m ->
  after (consume_round grace) w = after (handle grace (m_id m) (m_message m)) (received m w) /\
  events (consume_round grace) w =
    EvReceive RSMQ_READ_TIMEOUT true ::
    events (handle grace (m_id m) (m_message m)) (received m w).
Proof.
  intros Hok Hm. unfold events, after.
  rewrite consume_round_run, Hok, Hm. fold (received m w). split; [reflexivity|].
  destruct (adds_handle grace (m_id m) (m_message m) (received m w)) as (evs & Ht & _).
  rewrite Ht, events_app.
  change (w_trace (received m w)) with (w_trace w ++ [EvReceive RSMQ_READ_TIMEOUT true]).
  by rewrite <- app_assoc, events_app.
Qed.

Lemma earliest_elem (now : Z) (q : list qmsg) (m : qmsg) :
  earliest now q = Some m -> m ∈ q /\ m_visible m <= now.
Proof.
  revert m. induction q as [|m0 q IH]; intros m; cbn; [done|].
  destruct (earliest now q) as [m'|].
  - destruct (Z.leb_spec (m_visible m0) now); cbn.
    + destruct (m_visible m0 <=? m_visible m'); intros [= <-].
      * split; [apply list_elem_of_here | done].
      * destruct (IH m' eq_refl). split; [by apply list_elem_of_further | done].
    + intros [= <-]. destruct (IH m' eq_refl). split; [by apply list_elem_of_further | done].
  - destruct (Z.leb_spec (m_visible m0) now); [|done].
    intros [= <-]. split; [apply list_elem_of_here | done].
Qed.

(** A message that is hidden stays in the queue. *)
Lemma hide_elem (m : qmsg) (until : Z) (q : list qmsg) :
  m ∈ q -> QMsg (m_id m) (m_message m) until ∈ hide (m_id m) until q.
Proof.
  intros H. unfold hide. apply list_elem_of_In, List.in_map_iff. exists m.
  rewrite String.eqb_refl. split; [reflexivity|]. by apply list_elem_of_In.
Qed.

Lemma handle_events_unexpected (grace : Z) (id : string) (message : message_text) (w : World) :
  ~ expected message ->
  exists e, events (handle grace id message) w = [EvReport e None] /\
            w_queue (after (handle grace id message) w) = w_queue w.
Proof.
  intros Hu. rewrite handle_events, handle_queue.
  destruct message as [uuid ns|]; [|eauto].
  destruct (Z.eqb_spec ns (state_value Timeout)) as [->|_];
    [destruct Hu; exists uuid, Timeout; eauto|].
  destruct (Z.eqb_spec ns (state_value Offline)) as [->|_];
    [destruct Hu; exists uuid, Offline; eauto|].
  eauto.
Qed.

(** The message is reported and stays in the queue, hidden for 30 seconds:
    after them the next round receives it and reports it again. *)
Lemma unexpected_message_is_kept :
  ~ unexpected_is_discarded 2 stray_message (QMsg "x1" (MessageJson "dev-1" 1) 0) /\
  w_queue (after (consume_round 2) stray_message) = [QMsg "x1" (MessageJson "dev-1" 1) 30000] /\
  events (consume_round 2) (elapse 30000 (after (consume_round 2) stray_message)) =
    [EvReceive 30 true; EvReport (UnexpectedState 1) None].
Proof.
  split; [|split; reflexivity].
  intros H. destruct (H eq_refl eq_refl) as (_ & Hq).
  - intros (uuid & s & [-> | ->] & [=]).
  - apply (Hq (QMsg "x1" (MessageJson "dev-1" 1) 30000)); [|reflexivity].
    vm_compute. elem_solve.
Qed.

(** C3 (amended). A message received that is neither a Timeout nor an
    Offline (or whose text does not parse) is reported and nothing else is
    done with it: it is not deleted and stays in the queue, hidden until the
    visibility timeout has passed.  The deletion is skipped for these
    messages only: for a Timeout or an Offline message the deletion is
    always called. *)
Theorem consume_round_unexpected (grace : Z) (w : World) (m : qmsg) :
  fails QueueReceive w = false ->
  earliest (w_now w) (w_queue w) = Some m ->
  let evs := events (consume_round grace) w in
  let w' := after (consume_round grace) w in
  (~ expected (m_message m) ->
   (exists e, evs = [EvReceive RSMQ_READ_TIMEOUT true; EvReport e None]) /\
   w_queue w' = hide (m_id m) (w_now w + RSMQ_READ_TIMEOUT * 1000) (w_queue w) /\
   QMsg (m_id m) (m_message m) (w_now w + RSMQ_READ_TIMEOUT * 1000) ∈ w_queue w') /\
  (expected (m_message m) -> exists ok, EvDelete (m_id m) ok ∈ evs).
Proof.
  intros Hok Hm evs w'. subst evs w'.
  destruct (consume_round_received grace w m Hok Hm) as (-> & ->). split.
  - intros Hu.
    destruct (handle_events_unexpected grace (m_id m) (m_message m) (received m w) Hu)
      as (e & -> & ->).
    split; [eauto|]. split; [reflexivity|].
    cbn. apply hide_elem. by apply earliest_elem in Hm as (? & _).
  - intros (uuid & s & Hs & ->). rewrite handle_events.
    destruct Hs as [-> | ->]; cbn [state_value Z.eqb Pos.eqb].
    + destruct (fails QueueDelete (after (chained grace uuid) (received m w)));
        eexists; apply list_elem_of_further; apply elem_of_app; right;
        apply elem_of_app; right; apply list_elem_of_here.
    + destruct (fails QueueDelete (received m w));
        eexists; apply list_elem_of_further; apply elem_of_app; right;
        apply list_elem_of_here.
Qed.

Lemma consume_round_unexpected_witness :
  fails QueueReceive stray_message = false /\
  earliest (w_now stray_message) (w_queue stray_message)
    = Some (QMsg "x1" (MessageJson "dev-1" 1) 0) /\
  QMsg "x1" (MessageJson "dev-1" 1) 30000 ∈ w_queue (after (consume_round 2) stray_message).
Proof.
  split; [reflexivity|]. split; [reflexivity|].
  destruct (consume_round_unexpected 2 stray_message (QMsg "x1" (MessageJson "dev-1" 1) 0)
              eq_refl eq_refl) as [H _].
  apply H. intros (uuid & s & [-> | ->] & [=]).
Defined.

(** *** The chain from Timeout to Offline *)


Lemma update_events_ops (uuid : string) (s : DeviceOnlineStates) (w : World) (e : event) :
  e ∈ update_events uuid s w -> event_op e = Some ApiPatch \/ event_op e = None.
Proof.
  unfold update_events. intros H.
  destruct (fails ApiPatch w); elem_cases H; subst e; cbn; eauto.
Qed.

Lemma delete_events_ops (id : string) (failed : bool) (e : event) :
  e ∈ delete_events id failed -> event_op e = Some QueueDelete \/ event_op e = None.
Proof.
  unfold delete_events. intros H.
  destruct failed; elem_cases H; subst e; cbn; eauto.
Qed.

Lemma update_events_write (uuid : string) (s : DeviceOnlineStates) (w : World) :
  exists rows rest, update_events uuid s w = EvPatch uuid (state_value s) rows :: rest.
Proof. unfold update_events. destruct (fails ApiPatch w); eauto. Qed.



(** *** One pending message for a device *)

(** After a first heartbeat, a second one whose deletion of the old message
    is rejected, or one that comes when the record has expired and the old
    message is still in the queue: two messages for dev-1 are in the queue. *)
Lemma two_pending_messages :
  ~ scheduling_keeps_one_pending "dev-1" Online Timeout 5
      (with_faults (fault_on QueueDelete [true]) heartbeat_sent) /\
  ~ scheduling_keeps_one_pending "dev-1" Online Timeout 5 (elapse 11000 heartbeat_sent).
Proof.
  split; intros H.
  - assert (H1 : at_most_one_pending "dev-1"
                   (with_faults (fault_on QueueDelete [true]) heartbeat_sent))
      by (vm_compute; lia).
    apply H in H1. vm_compute in H1. lia.
  - assert (H1 : at_most_one_pending "dev-1" (elapse 11000 heartbeat_sent))
      by (vm_compute; lia).
    apply H in H1. vm_compute in H1. lia.
Qed.

Lemma filter_none {A} (f : A -> bool) (l : list A) :
  (forall x, x ∈ List.filter f l -> False) -> List.filter f l = [].
Proof.
  destruct (List.filter f l) as [|x l']; [done|].
  intros H. destruct (H x). apply list_elem_of_here.
Qed.

Lemma pending_elem (uuid : string) (q : list qmsg) (m : qmsg) :
  m ∈ pending uuid q <-> m ∈ q /\ is_pending uuid m = true.
Proof. unfold pending. by rewrite !list_elem_of_In, List.filter_In. Qed.

Lemma schedule_events_sends
  (uuid : string) (currentState nextState : DeviceOnlineStates) (delay : Z) (w : World) :
  (sends (schedule_events uuid currentState nextState delay w) <= 1)%nat.
Proof.
  unfold schedule_events, deletion_events.
  destruct (fails RedisGet w); [cbn; lia|].
  destruct (live_value (record_key uuid) w) as [[id cur|]|];
    try destruct (truthy id); destruct (fails QueueSend w); cbn; lia.
Qed.

(** C4 (amended). A scheduling first reads the record of the device; when
    the record names a message it calls its deletion, and whether that
    deletion is fulfilled or rejected the send follows; at most one message
    is sent.  When the read, the deletion and the send are fulfilled, the
    record parses and every message for the device in the queue is the one
    its live record names, the queue holds exactly one message for the device
    afterwards, the new one; and when the write of the record is fulfilled
    too, with a delay above -5 seconds, the new record names that message. *)
Theorem schedule_supersedes
  (uuid : string) (currentState nextState : DeviceOnlineStates) (delay : Z) (w : World) :
  let p := scheduleChangeOfStateForDevice uuid currentState nextState delay in
  let new := QMsg (message_id (w_sent w)) (MessageJson uuid (state_value nextState))
               (w_now w + delay * 1000) in
  (exists ok rest, events p w = EvGet (record_key uuid) ok :: rest) /\
  (forall id cur,
     fails RedisGet w = false ->
     live_value (record_key uuid) w = Some (RecordJson id cur) -> id <> "" ->
     exists deleted sent rest,
       events p w =
         EvGet (record_key uuid) true :: EvDelete id deleted ::
         EvSend (MessageJson uuid (state_value nextState)) delay sent :: rest /\
       forall e, e ∈ rest -> event_op e = Some RedisSet) /\
  (sends (events p w) <= 1)%nat /\
  (named_by_record uuid w ->
   fails RedisGet w = false -> fails QueueDelete w = false -> fails QueueSend w = false ->
   live_value (record_key uuid) w <> Some RecordInvalid ->
   pending uuid (w_queue (after p w)) = [new] /\
   (fails RedisSet w = false -> -5 < delay -> named_by_record uuid (after p w))).
Proof.
  intros p new. subst p.
  rewrite scheduleChangeOfStateForDevice_events.
  split; [|split; [|split]].
  - unfold schedule_events. destruct (fails RedisGet w); eauto.
  - intros id cur Hget Hrec Hid. unfold schedule_events, deletion_events.
    rewrite Hget, Hrec.
    assert (Ht : truthy id = true).
    { destruct (truthy id) eqn:E; [done|]. by apply truthy_false in E. }
    rewrite Ht. cbn [app].
    destruct (fails QueueSend w); do 3 eexists; (split; [reflexivity|]);
      intros e H; elem_cases H; by subst e.
  - apply schedule_events_sends.
  - intros Hnamed Hget Hdel Hsend Hrec.
    assert (Hq : pending uuid (w_queue
                   (after (scheduleChangeOfStateForDevice uuid currentState nextState delay) w))
                 = [new]).
    { rewrite scheduleChangeOfStateForDevice_queue. unfold schedule_queue.
      rewrite Hget, Hdel, Hsend. cbn [negb].
      assert (Hold :
                pending uuid
                  match live_value (record_key uuid) w with
                  | Some (RecordJson id _) =>
                      if truthy id && true then without id (w_queue w) else w_queue w
                  | _ => w_queue w
                  end = []).
      { apply filter_none. intros m Hm. apply pending_elem in Hm as (Hm & Hp).
        destruct (live_value (record_key uuid) w) as [[id cur|]|] eqn:Hlive; [|done|].
        - rewrite andb_true_r in Hm. destruct (truthy id) eqn:Ht.
          + apply without_spec in Hm as (Hm & Hne).
            destruct (Hnamed m) as (_ & c & Heq); [by apply pending_elem|].
            rewrite Hlive in Heq. congruence.
          + apply truthy_false in Ht as ->.
            destruct (Hnamed m) as (Hne & c & Heq); [by apply pending_elem|].
            rewrite Hlive in Heq. congruence.
        - destruct (Hnamed m) as (_ & c & Heq); [by apply pending_elem|].
          by rewrite Hlive in Heq. }
      destruct (live_value (record_key uuid) w) as [[id cur|]|]; [|done|];
        unfold pending in *; rewrite List.filter_app, Hold; cbn;
        unfold is_pending; cbn; by rewrite String.eqb_refl. }
    split; [exact Hq|].
    intros Hset Hdelay m Hm. rewrite Hq in Hm. apply list_elem_of_singleton in Hm as ->.
    split; [done|]. exists (state_value currentState).
    unfold live_value.
    rewrite scheduleChangeOfStateForDevice_store. unfold schedule_outcome.
    rewrite Hget, Hsend, Hset.
    destruct (scheduleChangeOfStateForDevice_frame uuid currentState nextState delay w)
      as (-> & _).
    assert (Hlive : (w_now w <? w_now w + (delay + 5) * 1000) = true)
      by (apply Z.ltb_lt; lia).
    destruct (live_value (record_key uuid) w) as [[id cur|]|]; [|done|];
      rewrite lookup_insert_eq; cbn; by rewrite Hlive.
Qed.

Lemma schedule_supersedes_witness :
  named_by_record "dev-1" heartbeat_sent /\
  pending "dev-1"
    (w_queue (after (scheduleChangeOfStateForDevice "dev-1" Online Timeout 5) heartbeat_sent))
  = [QMsg "m1" (MessageJson "dev-1" (-1)) 5000].
Proof.
  assert (H : named_by_record "dev-1" heartbeat_sent).
  { intros m Hm. vm_compute in Hm. elem_cases Hm. subst m. split; [done|].
    by exists 1. }
  split; [exact H|].
  destruct (schedule_supersedes "dev-1" Online Timeout 5 heartbeat_sent) as (_ & _ & _ & Hs).
  apply Hs; [exact H | reflexivity.. | vm_compute; congruence].
Defined.

(** *** getPollIntervalForDevice *)




(** *** What the manager never does *)

Ltac adds_close := cbn; first [done | by eauto 8].

Ltac adds_walk :=
  lazymatch goal with
  | |- adds _ (and_then _ _) => apply adds_and_then; [|intros ?]
  | |- adds _ (catch _ _) => apply adds_catch; [|intros ?]
  | |- adds _ (detached _) => apply adds_detached; [|intros ?; adds_close]
  | |- adds _ (resolve _) => apply adds_resolve
  | |- adds _ (reject _) => apply adds_reject
  | |- adds _ (noop _) => apply adds_resolve
  | |- adds _ (captureException _ _) => apply adds_captureException; adds_close
  | |- adds _ (Bluebird_delay _) => apply adds_delay; adds_close
  | |- adds _ (external _ _ _) =>
      apply adds_external; [intros ?; adds_close | intros ?; try reflexivity]
  | |- adds _ (if ?b then _ else _) => destruct b
  | |- adds _ (match ?x with _ => _ end) => destruct x
  end.

Lemma adds_heartbeat (uuid : string) (timeoutSeconds : Z) :
  adds (heartbeat_event uuid timeoutSeconds) (captureEventFor uuid timeoutSeconds).
Proof.
  unfold captureEventFor, deviceOnline, updateDeviceModel, scheduleChangeOfStateForDevice,
    redis_getAsync, redis_setAsync, rsmq_sendMessageAsync, rsmq_deleteMessageAsync,
    resinApi_patch, parse_record.
  repeat adds_walk.
  all: cbn; by destruct (patch_filtered _ _ _).
Qed.

Lemma adds_consume_round (grace : Z) : adds (consumer_event grace) (consume_round grace).
Proof.
  unfold consume_round, handle, dispatch, updateDeviceModel, scheduleChangeOfStateForDevice,
    redis_getAsync, redis_setAsync, rsmq_sendMessageAsync, rsmq_deleteMessageAsync,
    rsmq_receiveMessageAsync, resinApi_patch, parse_record, parse_message.
  repeat adds_walk.
  all: cbn; try by destruct (patch_filtered _ _ _).
  all: by destruct (earliest _ _).
Qed.

Lemma adds_consume (grace : Z) (n : nat) : adds (consumer_event grace) (consume grace n).
Proof.
  induction n as [|n IH]; cbn [consume]; [apply adds_resolve|].
  apply adds_and_then; [apply adds_consume_round | intros _; exact IH].
Qed.

(** X3. The states the manager writes: a heartbeat writes nothing but Online,
    and to its own device only; the consumer, for as many rounds as it runs,
    writes nothing but Timeout and Offline.  Nothing writes Unknown. *)
Theorem manager_writes :
  (forall uuid timeoutSeconds w u s rows,
     EvPatch u s rows ∈ events (captureEventFor uuid timeoutSeconds) w ->
     u = uuid /\ s = state_value Online) /\
  (forall grace n w u s rows,
     EvPatch u s rows ∈ events (consume grace n) w ->
     s = state_value Timeout \/ s = state_value Offline).
Proof.
  split.
  - intros uuid t w u s rows H.
    destruct (adds_events _ _ w (adds_heartbeat uuid t)) as (_ & F).
    rewrite Forall_forall in F. exact (F _ H).
  - intros grace n w u s rows H.
    destruct (adds_events _ _ w (adds_consume grace n)) as (_ & F).
    rewrite Forall_forall in F. exact (F _ H).
Qed.

Lemma manager_writes_witness :
  EvPatch "dev-1" (-1) (Some 1%nat) ∈ events (consume 2 1) timeout_due /\
  (-1 = state_value Timeout \/ -1 = state_value Offline).
Proof.
  assert (H : EvPatch "dev-1" (-1) (Some 1%nat) ∈ events (consume 2 1) timeout_due)
    by (vm_compute; elem_solve).
  split; [exact H|].
  destruct manager_writes as (_ & Hc). exact (Hc _ _ _ _ _ _ H).
Defined.

(** X4. The messages the manager sends are messages its consumer has a case
    for: a heartbeat sends nothing but a Timeout message for its device,
    delayed by [timeoutSeconds], and the consumer nothing but Offline
    messages, delayed by the grace delay.  Every record is written with an
    expiry 5 seconds above the delay of the message. *)
Theorem manager_sends :
  (forall uuid timeoutSeconds w e,
     e ∈ events (captureEventFor uuid timeoutSeconds) w ->
     match e with
     | EvSend m d _ =>
         m = MessageJson uuid (state_value Timeout) /\ d = timeoutSeconds /\ expected m
     | EvSet key _ ttl _ => key = record_key uuid /\ ttl = timeoutSeconds + 5
     | _ => True
     end) /\
  (forall grace n w e,
     e ∈ events (consume grace n) w ->
     match e with
     | EvSend m d _ =>
         (exists u, m = MessageJson u (state_value Offline)) /\ d = grace /\ expected m
     | EvSet _ _ ttl _ => ttl = grace + 5
     | _ => True
     end).
Proof.
  split.
  - intros uuid t w e H.
    destruct (adds_events _ _ w (adds_heartbeat uuid t)) as (_ & F).
    rewrite Forall_forall in F. specialize (F _ H).
    destruct e; try done; cbn in F.
    + by destruct F as (? & ? & _).
    + destruct F as (-> & ->). repeat split. exists uuid, Timeout. eauto.
  - intros grace n w e H.
    destruct (adds_events _ _ w (adds_consume grace n)) as (_ & F).
    rewrite Forall_forall in F. specialize (F _ H).
    destruct e; try done; cbn in F.
    + by destruct F as (? & _).
    + destruct F as ((u & ->) & ->). repeat split; [by exists u|]. exists u, Offline. eauto.
Qed.

Lemma manager_sends_witness :
  EvSend (MessageJson "dev-1" 0) 2 true ∈ events (consume 2 1) timeout_due /\
  expected (MessageJson "dev-1" 0).
Proof.
  assert (H : EvSend (MessageJson "dev-1" 0) 2 true ∈ events (consume 2 1) timeout_due)
    by (vm_compute; elem_solve).
  split; [exact H|].
  destruct manager_sends as (_ & Hc). exact (proj2 (proj2 (Hc _ _ _ _ H))).
Defined.

(** *** One device and the others *)

Lemma record_key_inj (u u' : string) : record_key u = record_key u' -> u = u'.
Proof. unfold record_key, REDIS_NAMESPACE. cbn. by intros [=]. Qed.

Lemma patch_filtered_other (uuid u' : string) (s : Z) (d : gmap string Z) :
  u' <> uuid -> snd (patch_filtered uuid s d) !! u' = d !! u'.
Proof.
  intros Hne. unfold patch_filtered.
  destruct (d !! uuid) as [old|]; [|done].
  destruct (old =? s); [done|]. cbn. by rewrite lookup_insert_ne.
Qed.

Lemma patch_filtered_state (uuid : string) (s : Z) (d : gmap string Z) :
  snd (patch_filtered uuid s d) !! uuid = (fun _ => s) <$> d !! uuid.
Proof.
  unfold patch_filtered.
  destruct (d !! uuid) as [old|] eqn:E; [|cbn; by rewrite E].
  destruct (Z.eqb_spec old s) as [->|_]; cbn; [by rewrite E|].
  by rewrite lookup_insert_eq.
Qed.

(** The devices after a heartbeat. *)
Lemma captureEventFor_devices (uuid : string) (timeoutSeconds : Z) (w : World) :
  w_devices (after (captureEventFor uuid timeoutSeconds) w) =
  if wants_online uuid w && negb (fails ApiPatch w)
  then snd (patch_filtered uuid (state_value Online) (w_devices w))
  else w_devices w.
Proof.
  unfold after at 1. rewrite captureEventFor_run.
  destruct (scheduleChangeOfStateForDevice_frame uuid Online Timeout timeoutSeconds
              (intake_world uuid w)) as (_ & Hd & _).
  unfold after in Hd. rewrite Hd.
  unfold intake_world, after, deviceOnline.
  destruct (wants_online uuid w); [|reflexivity].
  rewrite updateDeviceModel_run.
  replace (fails ApiPatch (log _ (next_fault RedisGet w))) with (fails ApiPatch w)
    by reflexivity.
  by destruct (fails ApiPatch w).
Qed.

(** X5. A heartbeat of one device leaves the others alone: the state of
    every other device and the record of every other device are after it
    what they were before, whatever is rejected on the way. *)
Theorem captureEventFor_other_devices
  (uuid other : string) (timeoutSeconds : Z) (w : World) :
  other <> uuid ->
  let w' := after (captureEventFor uuid timeoutSeconds) w in
  w_devices w' !! other = w_devices w !! other /\
  w_store w' !! record_key other = w_store w !! record_key other /\
  live_value (record_key other) w' = live_value (record_key other) w.
Proof.
  intros Hne w'. subst w'.
  assert (Hs : w_store (after (captureEventFor uuid timeoutSeconds) w) !! record_key other
               = w_store w !! record_key other).
  { rewrite captureEventFor_store.
    destruct (fst (captureEventFor uuid timeoutSeconds w)); [|done].
    apply lookup_insert_ne. intros H. by apply record_key_inj in H. }
  split; [|split; [exact Hs|]].
  - rewrite captureEventFor_devices.
    destruct (wants_online uuid w && negb (fails ApiPatch w)); [|done].
    by apply patch_filtered_other.
  - unfold live_value. rewrite Hs.
    unfold after. rewrite captureEventFor_run.
    destruct (scheduleChangeOfStateForDevice_frame uuid Online Timeout timeoutSeconds
                (intake_world uuid w)) as (Hn & _).
    unfold after in Hn. rewrite Hn.
    by destruct (intake_world_frame uuid w) as (-> & _).
Qed.

Lemma captureEventFor_other_devices_witness :
  "dev-2" <> "dev-1" /\
  w_devices (after (captureEventFor "dev-1" 5) world0) !! "dev-2" = w_devices world0 !! "dev-2".
Proof.
  split; [done|].
  by apply (captureEventFor_other_devices "dev-1" "dev-2" 5 world0).
Defined.

(** *** The record a scheduling leaves *)

Lemma schedule_outcome_fulfilled (uuid : string) (w : World) (reply : string) :
  schedule_outcome uuid w = Fulfilled reply ->
  reply = "OK" /\ fails RedisGet w = false /\ fails QueueSend w = false /\
  fails RedisSet w = false /\ live_value (record_key uuid) w <> Some RecordInvalid.
Proof.
  unfold schedule_outcome.
  destruct (fails RedisGet w); [done|].
  destruct (live_value (record_key uuid) w) as [[id cur|]|]; [|done|];
    destruct (fails QueueSend w); try done; destruct (fails RedisSet w); try done;
    by intros [= <-].
Qed.

Lemma schedule_queue_new
  (uuid : string) (nextState : DeviceOnlineStates) (delay : Z) (w : World) :
  fails RedisGet w = false -> fails QueueSend w = false ->
  live_value (record_key uuid) w <> Some RecordInvalid ->
  QMsg (message_id (w_sent w)) (MessageJson uuid (state_value nextState))
    (w_now w + delay * 1000) ∈ schedule_queue uuid nextState delay w.
Proof.
  intros Hget Hsend Hrec. unfold schedule_queue. rewrite Hget, Hsend.
  destruct (live_value (record_key uuid) w) as [[]|]; try done;
    apply elem_of_app; right; apply list_elem_of_here.
Qed.

(** X6. The record a fulfilled scheduling leaves reads back: it parses, it
    names the message that has just been sent, which is in the queue, it
    carries the current state given, and it expires 5 seconds after that
    message is due, so that it is live at once when the delay is above -5
    seconds. *)
Theorem scheduleChangeOfStateForDevice_record
  (uuid : string) (currentState nextState : DeviceOnlineStates) (delay : Z) (w : World)
  (reply : string) :
  fst (scheduleChangeOfStateForDevice uuid currentState nextState delay w) = Fulfilled reply ->
  let w' := after (scheduleChangeOfStateForDevice uuid currentState nextState delay) w in
  let id := message_id (w_sent w) in
  reply = "OK" /\ id <> "" /\
  QMsg id (MessageJson uuid (state_value nextState)) (w_now w + delay * 1000) ∈ w_queue w' /\
  w_store w' !! record_key uuid =
    Some (Entry (RecordJson id (state_value currentState)) (w_now w + delay * 1000 + 5000)) /\
  (-5 < delay -> live_value (record_key uuid) w' = Some (RecordJson id (state_value currentState))).
Proof.
  rewrite scheduleChangeOfStateForDevice_outcome. intros Ho w' id. subst w' id.
  pose proof (schedule_outcome_fulfilled uuid w reply Ho) as (-> & Hget & Hsend & Hset & Hrec).
  assert (Hstore :
            w_store (after (scheduleChangeOfStateForDevice uuid currentState nextState delay) w)
              !! record_key uuid =
            Some (Entry (RecordJson (message_id (w_sent w)) (state_value currentState))
                    (w_now w + delay * 1000 + 5000))).
  { rewrite scheduleChangeOfStateForDevice_store, Ho, lookup_insert_eq.
    do 2 f_equal. lia. }
  split; [done|]. split; [done|]. split; [|split; [exact Hstore|]].
  - rewrite scheduleChangeOfStateForDevice_queue. by apply schedule_queue_new.
  - intros Hdelay. unfold live_value. rewrite Hstore. cbn.
    destruct (scheduleChangeOfStateForDevice_frame uuid currentState nextState delay w)
      as (-> & _).
    assert (H : (w_now w <? w_now w + delay * 1000 + 5000) = true) by (apply Z.ltb_lt; lia).
    by rewrite H.
Qed.

Lemma scheduleChangeOfStateForDevice_record_witness :
  fst (scheduleChangeOfStateForDevice "dev-1" Online Timeout 5 world0) = Fulfilled "OK" /\
  live_value (record_key "dev-1")
    (after (scheduleChangeOfStateForDevice "dev-1" Online Timeout 5) world0)
  = Some (RecordJson "m0" 1).
Proof.
  split; [reflexivity|].
  apply (scheduleChangeOfStateForDevice_record "dev-1" Online Timeout 5 world0 "OK");
    [reflexivity | lia].
Defined.

(** *** The queue and the records agree *)

Lemma message_id_inj (a b : N) : message_id a = message_id b -> a = b.
Proof. unfold message_id. cbn. intros [= H]. by apply (inj pretty). Qed.

Lemma scheduleChangeOfStateForDevice_sent
  (uuid : string) (currentState nextState : DeviceOnlineStates) (delay : Z) (w : World) :
  w_sent (after (scheduleChangeOfStateForDevice uuid currentState nextState delay) w) =
  if fails RedisGet w then w_sent w
  else
    match live_value (record_key uuid) w with
    | Some RecordInvalid => w_sent w
    | _ => if fails QueueSend w then w_sent w else (w_sent w + 1)%N
    end.
Proof. split_run; reflexivity. Qed.

Lemma ids_filter (f : qmsg -> bool) (q : list qmsg) :
  NoDup (map m_id q) -> NoDup (map m_id (List.filter f q)).
Proof.
  induction q as [|m q IH]; cbn; [done|].
  intros H. apply NoDup_cons in H as (Hm & Hq).
  destruct (f m); cbn; [|by apply IH].
  apply NoDup_cons. split; [|by apply IH].
  intros Hin. apply Hm.
  apply list_elem_of_fmap in Hin as (x & Hx & Hin). apply list_elem_of_fmap.
  exists x. split; [done|]. by apply list_elem_of_In, List.filter_In in Hin as (? & _);
    apply list_elem_of_In.
Qed.

Lemma one_pending_of_tracked (w : World) (uuid : string) :
  tracked w -> at_most_one_pending uuid w.
Proof.
  intros (_ & Hdup & Hnamed). unfold at_most_one_pending.
  pose proof (ids_filter (is_pending uuid) (w_queue w) Hdup) as Hp.
  fold (pending uuid (w_queue w)) in Hp.
  specialize (Hnamed uuid).
  destruct (pending uuid (w_queue w)) as [|a [|b l]] eqn:E; cbn; [lia..|].
  exfalso.
  destruct (Hnamed a) as (_ & ca & Ha); [rewrite E; apply list_elem_of_here|].
  destruct (Hnamed b) as (_ & cb & Hb);
    [rewrite E; apply list_elem_of_further, list_elem_of_here|].
  rewrite Ha in Hb. injection Hb as Hid _.
  cbn in Hp. apply NoDup_cons in Hp as (Hp & _). apply Hp.
  rewrite Hid. apply list_elem_of_here.
Qed.

Lemma tracked_heartbeat_sent : tracked heartbeat_sent.
Proof.
  split; [|split].
  - intros m Hm. vm_compute in Hm. elem_cases Hm. subst m. exists 0%N. by split.
  - vm_compute. apply NoDup_singleton.
  - intros u m Hm. apply pending_elem in Hm as (Hm & Hp).
    vm_compute in Hm. elem_cases Hm. subst m.
    change (String.eqb "dev-1" u = true) in Hp. apply String.eqb_eq in Hp as <-.
    split; [done|]. by exists 1.
Qed.

Lemma tracked_fewer (w w' : World) :
  tracked w -> w_now w' = w_now w -> w_store w' = w_store w -> w_sent w' = w_sent w ->
  (forall m, m ∈ w_queue w' -> m ∈ w_queue w) -> NoDup (map m_id (w_queue w')) ->
  tracked w'.
Proof.
  intros (Hiss & _ & Hnamed) Hn Hs Hc Hsub Hdup. split; [|split; [exact Hdup|]].
  - intros m Hm. rewrite Hc. apply Hiss. by apply Hsub.
  - intros u m Hm. apply pending_elem in Hm as (Hm & Hp).
    rewrite (live_value_frame (record_key u) w w' Hn Hs).
    apply Hnamed, pending_elem. split; [by apply Hsub | done].
Qed.

(** What is left of the queue when a scheduling comes to its send. *)
Lemma queue_before_send (uuid : string) (w : World) :
  tracked w -> fails QueueDelete w = false ->
  let q1 :=
    match live_value (record_key uuid) w with
    | Some (RecordJson id _) =>
        if truthy id && negb (fails QueueDelete w) then without id (w_queue w)
        else w_queue w
    | _ => w_queue w
    end in
  (forall m, m ∈ q1 -> m ∈ w_queue w) /\ NoDup (map m_id q1) /\ pending uuid q1 = [].
Proof.
  intros (_ & Hdup & Hnamed) Hdel q1. subst q1. rewrite Hdel. cbn [negb].
  specialize (Hnamed uuid).
  destruct (live_value (record_key uuid) w) as [[id cur|]|] eqn:Hlive.
  - rewrite andb_true_r. destruct (truthy id) eqn:Ht.
    + split; [|split].
      * intros m Hm. by apply without_spec in Hm as (? & _).
      * by apply ids_filter.
      * apply filter_none. intros m Hm. apply pending_elem in Hm as (Hm & Hp).
        apply without_spec in Hm as (Hm & Hne).
        destruct (Hnamed m) as (_ & c & Heq); [by apply pending_elem|]. congruence.
    + split; [done|]. split; [done|].
      apply filter_none. intros m Hm. fold (pending uuid (w_queue w)) in Hm.
      apply truthy_false in Ht as ->.
      destruct (Hnamed m) as (Hne & c & Heq); [done|]. congruence.
  - split; [done|]. split; [done|].
    apply filter_none. intros m Hm. fold (pending uuid (w_queue w)) in Hm.
    destruct (Hnamed m) as (_ & c & Heq); [done|]. congruence.
  - split; [done|]. split; [done|].
    apply filter_none. intros m Hm. fold (pending uuid (w_queue w)) in Hm.
    destruct (Hnamed m) as (_ & c & Heq); [done|]. congruence.
Qed.

(** A scheduling whose deletion and whose write of the record are not
    rejected keeps the queue and the records in agreement. *)
Lemma schedule_keeps_tracked
  (uuid : string) (currentState nextState : DeviceOnlineStates) (delay : Z) (w : World) :
  tracked w -> fails QueueDelete w = false -> fails RedisSet w = false -> -5 < delay ->
  tracked (after (scheduleChangeOfStateForDevice uuid currentState nextState delay) w).
Proof.
  intros Ht Hdel Hset Hdelay.
  set (w' := after (scheduleChangeOfStateForDevice uuid currentState nextState delay) w).
  pose proof (scheduleChangeOfStateForDevice_queue uuid currentState nextState delay w) as Hq.
  pose proof (scheduleChangeOfStateForDevice_store uuid currentState nextState delay w) as Hs.
  pose proof (scheduleChangeOfStateForDevice_sent uuid currentState nextState delay w) as Hc.
  destruct (scheduleChangeOfStateForDevice_frame uuid currentState nextState delay w)
    as (Hn & _).
  fold w' in Hq, Hs, Hc, Hn.
  destruct (queue_before_send uuid w Ht Hdel) as (Hsub & Hdup1 & Hnone).
  unfold schedule_queue in Hq. unfold schedule_outcome in Hs.
  destruct (fails RedisGet w).
  { apply (tracked_fewer w); try done; rewrite Hq; [done | apply Ht]. }
  assert (Hcase : live_value (record_key uuid) w = Some RecordInvalid \/
                  live_value (record_key uuid) w <> Some RecordInvalid)
    by (destruct (live_value (record_key uuid) w) as [[]|]; eauto).
  destruct Hcase as [Hinv|Hrec].
  { rewrite Hinv in Hq, Hs, Hc. apply (tracked_fewer w); try done; rewrite Hq; [done | apply Ht]. }
  set (q1 := match live_value (record_key uuid) w with
             | Some (RecordJson id _) =>
                 if truthy id && negb (fails QueueDelete w) then without id (w_queue w)
                 else w_queue w
             | _ => w_queue w
             end) in *.
  set (new := QMsg (message_id (w_sent w)) (MessageJson uuid (state_value nextState))
                (w_now w + delay * 1000)) in *.
  assert (Hq' : w_queue w' = if fails QueueSend w then q1 else q1 ++ [new]).
  { rewrite Hq. by destruct (live_value (record_key uuid) w) as [[]|]. }
  assert (Hc' : w_sent w' = if fails QueueSend w then w_sent w else (w_sent w + 1)%N).
  { rewrite Hc. by destruct (live_value (record_key uuid) w) as [[]|]. }
  assert (Hs' : w_store w' =
                if fails QueueSend w then w_store w
                else <[record_key uuid :=
                         Entry (RecordJson (message_id (w_sent w)) (state_value currentState))
                           (w_now w + (delay + 5) * 1000)]> (w_store w)).
  { rewrite Hs, Hset. destruct (live_value (record_key uuid) w) as [[]|]; try done;
      by destruct (fails QueueSend w). }
  clear Hq Hc Hs.
  destruct (fails QueueSend w).
  { apply (tracked_fewer w); try done; by rewrite Hq'. }
  destruct Ht as (Hiss & Hdup & Hnamed).
  split; [|split].
  - intros m Hm. rewrite Hq' in Hm. rewrite Hc'.
    apply elem_of_app in Hm as [Hm|Hm].
    + destruct (Hiss m) as (k & Hk & Hid); [by apply Hsub|]. exists k. split; [lia|done].
    + apply list_elem_of_singleton in Hm as ->. exists (w_sent w). split; [lia|done].
  - rewrite Hq', map_app. apply NoDup_app. split; [done|]. split; [|apply NoDup_singleton].
    intros x Hx Hnew. apply list_elem_of_singleton in Hnew as ->.
    apply list_elem_of_fmap in Hx as (m & Hid & Hm).
    destruct (Hiss m) as (k & Hk & Hid'); [by apply Hsub|].
    cbn in Hid. rewrite Hid' in Hid. apply message_id_inj in Hid. lia.
  - intros u m Hm. rewrite Hq' in Hm. apply pending_elem in Hm as (Hm & Hp).
    unfold live_value. rewrite Hs', Hn.
    apply elem_of_app in Hm as [Hm|Hm].
    + destruct (decide (u = uuid)) as [->|Hne].
      * assert (Hin : m ∈ pending uuid q1) by (by apply pending_elem).
        rewrite Hnone in Hin. by apply elem_of_nil in Hin.
      * rewrite lookup_insert_ne; [|intros H; by apply record_key_inj in H].
        apply Hnamed, pending_elem. split; [by apply Hsub | done].
    + apply list_elem_of_singleton in Hm as ->.
      change (String.eqb uuid u = true) in Hp. apply String.eqb_eq in Hp as <-.
      split; [done|]. exists (state_value currentState).
      rewrite lookup_insert_eq. cbn.
      assert (H : (w_now w <? w_now w + (delay + 5) * 1000) = true) by (apply Z.ltb_lt; lia).
      by rewrite H.
Qed.

Lemma tracked_same (w w' : World) :
  tracked w -> w_now w' = w_now w -> w_store w' = w_store w -> w_sent w' = w_sent w ->
  w_queue w' = w_queue w -> tracked w'.
Proof.
  intros Ht Hn Hs Hc Hq. apply (tracked_fewer w); try done; rewrite Hq; [done | apply Ht].
Qed.

(** X7. Heartbeats keep the queue and the records in agreement, and so at
    most one message for every device in the queue, as long as the deletion
    of the old message and the write of the record are not rejected and the
    timeout is above -5 seconds; a rejected read, online write or send does
    not matter. *)
Theorem captureEventFor_keeps_tracked (uuid : string) (timeoutSeconds : Z) (w : World) :
  tracked w -> fails QueueDelete w = false -> fails RedisSet w = false ->
  -5 < timeoutSeconds ->
  tracked (after (captureEventFor uuid timeoutSeconds) w) /\
  forall u, at_most_one_pending u (after (captureEventFor uuid timeoutSeconds) w).
Proof.
  intros Ht Hdel Hset Hdelay.
  assert (H : tracked (after (captureEventFor uuid timeoutSeconds) w)).
  { unfold after. rewrite captureEventFor_run.
    destruct (intake_world_frame uuid w) as (Hn & Hs & Hq & Hc & _ & Hd & _ & Hw).
    apply schedule_keeps_tracked; [|congruence..|done].
    by apply (tracked_same w). }
  split; [exact H|]. intros u. by apply one_pending_of_tracked.
Qed.

Lemma captureEventFor_keeps_tracked_witness :
  tracked heartbeat_sent /\
  at_most_one_pending "dev-1" (after (captureEventFor "dev-1" 5) heartbeat_sent).
Proof.
  split; [exact tracked_heartbeat_sent|].
  apply (captureEventFor_keeps_tracked "dev-1" 5 heartbeat_sent);
    [exact tracked_heartbeat_sent | reflexivity | reflexivity | lia].
Defined.

Lemma hide_ids (id : string) (until : Z) (q : list qmsg) :
  map m_id (hide id until q) = map m_id q.
Proof.
  unfold hide. rewrite List.map_map. apply List.map_ext.
  intros m. by destruct (String.eqb (m_id m) id).
Qed.

Lemma hide_elem_inv (id : string) (until : Z) (q : list qmsg) (m : qmsg) :
  m ∈ hide id until q ->
  exists m0, m0 ∈ q /\ m_id m = m_id m0 /\ m_message m = m_message m0.
Proof.
  unfold hide. intros H. apply list_elem_of_In, List.in_map_iff in H as (m0 & <- & Hin).
  exists m0. split; [by apply list_elem_of_In|]. by destruct (String.eqb (m_id m0) id).
Qed.

(** Receiving a message hides it and changes nothing else. *)
Lemma tracked_received (m : qmsg) (w : World) : tracked w -> tracked (received m w).
Proof.
  intros (Hiss & Hdup & Hnamed). split; [|split].
  - intros m' Hm'. cbn in Hm'. apply hide_elem_inv in Hm' as (m0 & Hin & -> & _).
    by apply Hiss.
  - cbn. by rewrite hide_ids.
  - intros u m' Hm'. apply pending_elem in Hm' as (Hm' & Hp). cbn in Hm'.
    apply hide_elem_inv in Hm' as (m0 & Hin & Hid & Hmsg).
    rewrite Hid.
    rewrite (live_value_frame (record_key u) w (received m w) eq_refl eq_refl).
    apply Hnamed, pending_elem. split; [done|].
    unfold is_pending in *. by rewrite <- Hmsg.
Qed.

Lemma tracked_delete_and_end (id : string) (w : World) :
  tracked w -> tracked (snd (delete_and_end id w)).
Proof.
  intros Ht. unfold delete_and_end. destruct (fails QueueDelete w); cbn [snd].
  - by apply (tracked_same w).
  - apply (tracked_fewer w); try done; cbn.
    + intros m Hm. by apply without_spec in Hm as (? & _).
    + apply ids_filter, Ht.
Qed.

Lemma tracked_update (uuid : string) (s : DeviceOnlineStates) (w : World) :
  tracked w -> tracked (after (updateDeviceModel uuid s) w).
Proof.
  intros Ht. unfold after. rewrite updateDeviceModel_run.
  destruct (fails ApiPatch w); by apply (tracked_same w).
Qed.

Lemma tracked_chained (grace : Z) (uuid : string) (w : World) :
  tracked w -> fails QueueDelete w = false -> fails RedisSet w = false -> -5 < grace ->
  tracked (after (chained grace uuid) w).
Proof.
  intros Ht Hdel Hset Hg.
  pose proof (schedule_keeps_tracked uuid Timeout Offline grace w Ht Hdel Hset Hg) as H.
  unfold chained, after, detached in *.
  destruct (scheduleChangeOfStateForDevice uuid Timeout Offline grace w) as [[a|e] w1];
    [exact H | by apply (tracked_same w1)].
Qed.

(** X8. A round of the consumer that receives a message keeps the queue and
    the records in agreement, under the same conditions: the deletion of the
    old message and the write of the record by the scheduling of Offline are
    not rejected, and the grace delay is above -5 seconds. *)
Theorem consume_round_keeps_tracked (grace : Z) (w : World) (m : qmsg) :
  tracked w ->
  fails QueueReceive w = false -> earliest (w_now w) (w_queue w) = Some m ->
  fails QueueDelete w = false -> fails RedisSet w = false -> -5 < grace ->
  tracked (after (consume_round grace) w) /\
  forall u, at_most_one_pending u (after (consume_round grace) w).
Proof.
  intros Ht Hok Hm Hdel Hset Hg.
  assert (H : tracked (after (consume_round grace) w)).
  { destruct (consume_round_received grace w m Hok Hm) as (-> & _).
    pose proof (tracked_received m w Ht) as Hr.
    unfold after at 1. rewrite handle_run.
    destruct (m_message m) as [uuid ns|]; [|by apply (tracked_same (received m w))].
    destruct (ns =? state_value Timeout).
    - apply tracked_delete_and_end, tracked_update.
      fold (chained grace uuid). by apply tracked_chained.
    - destruct (ns =? state_value Offline).
      + by apply tracked_delete_and_end, tracked_update.
      + by apply (tracked_same (received m w)). }
  split; [exact H|]. intros u. by apply one_pending_of_tracked.
Qed.

Lemma consume_round_keeps_tracked_witness :
  tracked timeout_due /\ at_most_one_pending "dev-1" (after (consume_round 2) timeout_due).
Proof.
  assert (H : tracked timeout_due).
  { split; [|split].
    - intros m Hm. vm_compute in Hm. elem_cases Hm. subst m. exists 0%N. by split.
    - vm_compute. apply NoDup_singleton.
    - intros u m Hm. apply pending_elem in Hm as (Hm & Hp).
      vm_compute in Hm. elem_cases Hm. subst m.
      change (String.eqb "dev-1" u = true) in Hp. apply String.eqb_eq in Hp as <-.
      split; [done|]. by exists 1. }
  split; [exact H|].
  apply (consume_round_keeps_tracked 2 timeout_due (QMsg "m0" (MessageJson "dev-1" (-1)) 5000));
    [exact H | by vm_compute.. | lia].
Defined.

(** *** Runs in which nothing is rejected *)

Lemma quiet_fails (o : op) (w : World) : quiet w -> fails o w = false.
Proof. intros H. unfold fails. by rewrite H. Qed.

Lemma quiet_second_fails (o : op) (w : World) : quiet w -> second_fails o w = false.
Proof. intros H. unfold second_fails. by rewrite H. Qed.

Lemma quiet_next_fault (o : op) (w : World) : quiet w -> quiet (next_fault o w).
Proof. intros H o'. cbn. rewrite H. by destruct (op_eqb o o'). Qed.

Lemma quiet_same (w w' : World) : w_faults w' = w_faults w -> quiet w -> quiet w'.
Proof. intros E H o. by rewrite E. Qed.

Section KeepsQuiet.

Lemma keeps_quiet_resolve {A} (a : A) : keeps_quiet (resolve a).
Proof. by intros w H. Qed.

Lemma keeps_quiet_reject {A} (e : error) : keeps_quiet (@reject A e).
Proof. by intros w H. Qed.

Lemma keeps_quiet_and_then {A B} (p : Promise A) (f : A -> Promise B) :
  keeps_quiet p -> (forall a, keeps_quiet (f a)) -> keeps_quiet (and_then p f).
Proof.
  intros Hp Hf w H. unfold and_then. specialize (Hp w H).
  destruct (p w) as [[a|e] w1]; cbn in *; [by apply Hf | done].
Qed.

Lemma keeps_quiet_catch {A} (p : Promise A) (h : error -> Promise A) :
  keeps_quiet p -> (forall e, keeps_quiet (h e)) -> keeps_quiet (catch p h).
Proof.
  intros Hp Hh w H. unfold catch. specialize (Hp w H).
  destruct (p w) as [[a|e] w1]; cbn in *; [done | by apply Hh].
Qed.

Lemma keeps_quiet_detached {A} (p : Promise A) : keeps_quiet p -> keeps_quiet (detached p).
Proof.
  intros Hp w H. unfold detached. specialize (Hp w H).
  destruct (p w) as [[a|e] w1]; cbn in *; done.
Qed.

Lemma keeps_quiet_external {A} (o : op) (ev : option A -> event) (run : World -> A * World) :
  (forall w, w_faults (snd (run w)) = w_faults w) -> keeps_quiet (external o ev run).
Proof.
  intros Hrun w H. unfold external. rewrite (quiet_fails o w H).
  specialize (Hrun (next_fault o w)). destruct (run (next_fault o w)) as [a w2]. cbn in *.
  intros o'. cbn [snd log w_faults]. rewrite Hrun. by apply quiet_next_fault.
Qed.

Lemma keeps_quiet_captureException (e : error) (ctx : option string) :
  keeps_quiet (captureException e ctx).
Proof. by intros w H. Qed.

Lemma keeps_quiet_delay (ms : Z) : keeps_quiet (Bluebird_delay ms).
Proof. by intros w H. Qed.

End KeepsQuiet.

Ltac quiet_walk :=
  lazymatch goal with
  | |- keeps_quiet (and_then _ _) => apply keeps_quiet_and_then; [|intros ?]
  | |- keeps_quiet (catch _ _) => apply keeps_quiet_catch; [|intros ?]
  | |- keeps_quiet (detached _) => apply keeps_quiet_detached
  | |- keeps_quiet (resolve _) => apply keeps_quiet_resolve
  | |- keeps_quiet (reject _) => apply keeps_quiet_reject
  | |- keeps_quiet (noop _) => apply keeps_quiet_resolve
  | |- keeps_quiet (captureException _ _) => apply keeps_quiet_captureException
  | |- keeps_quiet (Bluebird_delay _) => apply keeps_quiet_delay
  | |- keeps_quiet (external _ _ _) => apply keeps_quiet_external; intros ?; try reflexivity
  | |- keeps_quiet (if ?b then _ else _) => destruct b
  | |- keeps_quiet (match ?x with _ => _ end) => destruct x
  end.

Lemma keeps_quiet_heartbeat (uuid : string) (timeoutSeconds : Z) :
  keeps_quiet (captureEventFor uuid timeoutSeconds).
Proof.
  unfold captureEventFor, deviceOnline, updateDeviceModel, scheduleChangeOfStateForDevice,
    redis_getAsync, redis_setAsync, rsmq_sendMessageAsync, rsmq_deleteMessageAsync,
    resinApi_patch, parse_record.
  repeat quiet_walk.
  all: cbn; by destruct (patch_filtered _ _ _).
Qed.

Lemma keeps_quiet_consume_round (grace : Z) : keeps_quiet (consume_round grace).
Proof.
  unfold consume_round, handle, dispatch, updateDeviceModel, scheduleChangeOfStateForDevice,
    redis_getAsync, redis_setAsync, rsmq_sendMessageAsync, rsmq_deleteMessageAsync,
    rsmq_receiveMessageAsync, resinApi_patch, parse_record, parse_message.
  repeat quiet_walk.
  all: cbn; try by destruct (patch_filtered _ _ _).
  all: by destruct (earliest _ _).
Qed.

(** Runs a chain in a quiet world. *)
Ltac quiet_run Hq :=
  unfold quiet in Hq; unfold wants_online, schedule_queue, writes_of in *; unfold_chains;
  repeat first
    [ progress (rewrite !Hq; cbn)
    | split_run_step
    | match goal with
      | |- context [if negb (?a =? ?b) then _ else _] =>
          let E := fresh "Hstate" in destruct (a =? b) eqn:E; cbn
      end ].

(** What a heartbeat does when nothing is rejected. *)
Lemma heartbeat_effect (uuid : string) (timeoutSeconds : Z) (w : World) :
  quiet w -> live_value (record_key uuid) w <> Some RecordInvalid ->
  let w' := after (captureEventFor uuid timeoutSeconds) w in
  fst (captureEventFor uuid timeoutSeconds w) = Fulfilled "OK" /\
  w_now w' = w_now w /\ w_sent w' = (w_sent w + 1)%N /\
  w_devices w' =
    (if wants_online uuid w then snd (patch_filtered uuid (state_value Online) (w_devices w))
     else w_devices w) /\
  w_queue w' =
    match live_value (record_key uuid) w with
    | Some (RecordJson id _) => if truthy id then without id (w_queue w) else w_queue w
    | _ => w_queue w
    end ++
    [QMsg (message_id (w_sent w)) (MessageJson uuid (state_value Timeout))
       (w_now w + timeoutSeconds * 1000)] /\
  w_store w' =
    <[record_key uuid :=
        Entry (RecordJson (message_id (w_sent w)) (state_value Online))
          (w_now w + (timeoutSeconds + 5) * 1000)]> (w_store w) /\
  writes_of (events (captureEventFor uuid timeoutSeconds) w) =
    (if wants_online uuid w then [(uuid, state_value Online)] else []).
Proof.
  intros Hq Hvalid w'. subst w'. revert Hvalid.
  quiet_run Hq; intros Hvalid; try done; flatten_trace; repeat split; reflexivity.
Qed.

(** What the handling of a Timeout and of an Offline message does when
    nothing is rejected. *)
Lemma handle_timeout_effect (grace : Z) (id uuid : string) (w : World) :
  quiet w -> live_value (record_key uuid) w <> Some RecordInvalid ->
  let w' := after (handle grace id (MessageJson uuid (state_value Timeout))) w in
  w_now w' = w_now w /\ w_sent w' = (w_sent w + 1)%N /\
  w_devices w' = snd (patch_filtered uuid (state_value Timeout) (w_devices w)) /\
  w_queue w' =
    without id
      (match live_value (record_key uuid) w with
       | Some (RecordJson old _) => if truthy old then without old (w_queue w) else w_queue w
       | _ => w_queue w
       end ++
       [QMsg (message_id (w_sent w)) (MessageJson uuid (state_value Offline))
          (w_now w + grace * 1000)]) /\
  w_store w' =
    <[record_key uuid :=
        Entry (RecordJson (message_id (w_sent w)) (state_value Timeout))
          (w_now w + (grace + 5) * 1000)]> (w_store w) /\
  writes_of (events (handle grace id (MessageJson uuid (state_value Timeout))) w) =
    [(uuid, state_value Timeout)].
Proof.
  intros Hq Hvalid w'. subst w'. revert Hvalid. unfold handle, dispatch, without.
  quiet_run Hq; intros Hvalid; try done; flatten_trace; repeat split; reflexivity.
Qed.

Lemma handle_offline_effect (grace : Z) (id uuid : string) (w : World) :
  quiet w ->
  let w' := after (handle grace id (MessageJson uuid (state_value Offline))) w in
  w_now w' = w_now w /\ w_sent w' = w_sent w /\ w_store w' = w_store w /\
  w_devices w' = snd (patch_filtered uuid (state_value Offline) (w_devices w)) /\
  w_queue w' = without id (w_queue w) /\
  writes_of (events (handle grace id (MessageJson uuid (state_value Offline))) w) =
    [(uuid, state_value Offline)].
Proof.
  intros Hq w'. subst w'. unfold handle, dispatch, without.
  quiet_run Hq; flatten_trace; repeat split; reflexivity.
Qed.

(** *** The state of the device after a heartbeat and after a round *)

(** The devices after the handling of a Timeout or an Offline message. *)
Lemma handle_devices (grace : Z) (id uuid : string) (s : DeviceOnlineStates) (w : World) :
  s = Timeout \/ s = Offline ->
  w_devices (after (handle grace id (MessageJson uuid (state_value s))) w) =
  if fails ApiPatch w then w_devices w
  else snd (patch_filtered uuid (state_value s) (w_devices w)).
Proof.
  intros Hs. unfold after at 1. rewrite handle_run.
  assert (Hend : forall w0, w_devices (snd (delete_and_end id w0)) = w_devices w0).
  { intros w0. unfold delete_and_end. by destruct (fails QueueDelete w0). }
  assert (Hup : forall w0,
             w_devices (after (updateDeviceModel uuid s) w0) =
             if fails ApiPatch w0 then w_devices w0
             else snd (patch_filtered uuid (state_value s) (w_devices w0))).
  { intros w0. unfold after. rewrite updateDeviceModel_run. by destruct (fails ApiPatch w0). }
  destruct Hs as [-> | ->]; cbn [state_value Z.eqb Pos.eqb]; rewrite Hend, Hup; [|done].
  destruct (detached_schedule_frame uuid Timeout Offline grace w) as (_ & _ & _ & Hd & Hp).
  unfold fails. by rewrite Hd, Hp.
Qed.

(** X9. A round that receives a Timeout or an Offline message, and whose
    write is not rejected, leaves the device of the message in that state,
    when the device exists, and every other device as it was: this holds
    whatever happens to the scheduling of Offline and to the deletion. *)
Theorem consume_round_applies
  (grace : Z) (w : World) (m : qmsg) (uuid : string) (s : DeviceOnlineStates) :
  fails QueueReceive w = false -> earliest (w_now w) (w_queue w) = Some m ->
  m_message m = MessageJson uuid (state_value s) -> s = Timeout \/ s = Offline ->
  fails ApiPatch w = false ->
  let w' := after (consume_round grace) w in
  w_devices w' !! uuid = (fun _ => state_value s) <$> w_devices w !! uuid /\
  forall other, other <> uuid -> w_devices w' !! other = w_devices w !! other.
Proof.
  intros Hok Hm Hmsg Hs Hpatch w'. subst w'.
  destruct (consume_round_received grace w m Hok Hm) as (-> & _).
  rewrite Hmsg, handle_devices by done.
  change (fails ApiPatch (received m w)) with (fails ApiPatch w). rewrite Hpatch.
  change (w_devices (received m w)) with (w_devices w).
  split; [apply patch_filtered_state|]. intros other Hne. by apply patch_filtered_other.
Qed.

Lemma consume_round_applies_witness :
  earliest (w_now timeout_due) (w_queue timeout_due)
    = Some (QMsg "m0" (MessageJson "dev-1" (-1)) 5000) /\
  w_devices (after (consume_round 2) timeout_due) !! "dev-1"
    = (fun _ => -1) <$> w_devices timeout_due !! "dev-1".
Proof.
  split; [by vm_compute|].
  apply (consume_round_applies 2 timeout_due (QMsg "m0" (MessageJson "dev-1" (-1)) 5000)
           "dev-1" Timeout); by vm_compute || by left.
Defined.

(** X10. After a heartbeat whose read of the record was rejected, or found no
    live record, or one that does not parse, names no message or is not in
    state Online, and whose online write is not rejected, the device is
    Online, when it exists.  After a heartbeat that read a record in state
    Online that names a message, the devices are what they were and the API
    has not been called. *)
Theorem captureEventFor_device_state (uuid : string) (timeoutSeconds : Z) (w : World) :
  let w' := after (captureEventFor uuid timeoutSeconds) w in
  (fails RedisGet w = true \/
   match live_value (record_key uuid) w with
   | Some (RecordJson id currentState) => id = "" \/ currentState <> state_value Online
   | _ => True
   end ->
   fails ApiPatch w = false ->
   w_devices w' !! uuid = (fun _ => state_value Online) <$> w_devices w !! uuid) /\
  (forall id,
     fails RedisGet w = false ->
     live_value (record_key uuid) w = Some (RecordJson id (state_value Online)) ->
     id <> "" ->
     w_devices w' = w_devices w /\
     forall e, e ∈ events (captureEventFor uuid timeoutSeconds) w ->
               event_op e <> Some ApiPatch).
Proof.
  intros w'. subst w'. rewrite captureEventFor_devices. split.
  - intros Hw Hpatch.
    assert (Hwants : wants_online uuid w = true).
    { apply wants_online_spec. destruct Hw as [Hw|Hw]; [by left|right].
      by destruct (live_value (record_key uuid) w) as [[]|]. }
    rewrite Hwants, Hpatch. apply patch_filtered_state.
  - intros id Hget Hrec Hid.
    assert (Hwants : wants_online uuid w = false).
    { unfold wants_online. rewrite Hget, Hrec.
      destruct (truthy id) eqn:Ht; [done|]. by apply truthy_false in Ht. }
    rewrite Hwants. split; [done|].
    intros e He Hop. rewrite captureEventFor_events in He.
    apply elem_of_app in He as [He|He].
    + unfold intake_events in He. rewrite Hwants in He. elem_cases He. by subst e.
    + by apply schedule_events_ops in He as (? & _).
Qed.

Lemma captureEventFor_device_state_witness :
  live_value (record_key "dev-1") world0 = None /\
  w_devices (after (captureEventFor "dev-1" 5) world0) !! "dev-1" = Some 1.
Proof.
  split; [reflexivity|].
  destruct (captureEventFor_device_state "dev-1" 5 world0) as (H & _).
  apply H; [by right | reflexivity].
Defined.

(** *** From heartbeat to Offline *)

Lemma without_same (id : string) (message : message_text) (visible : Z) :
  without id [QMsg id message visible] = [].
Proof. unfold without. cbn. by rewrite String.eqb_refl. Qed.

Lemma without_other (id : string) (m : qmsg) : m_id m <> id -> without id [m] = [m].
Proof.
  intros H. unfold without. cbn. by destruct (String.eqb_spec (m_id m) id).
Qed.

Lemma without_app (id : string) (q1 q2 : list qmsg) :
  without id (q1 ++ q2) = without id q1 ++ without id q2.
Proof. apply List.filter_app. Qed.

Lemma message_id_next (n : N) : message_id (n + 1) <> message_id n.
Proof. intros H. apply message_id_inj in H. lia. Qed.

Lemma earliest_single (now : Z) (m : qmsg) : m_visible m <= now -> earliest now [m] = Some m.
Proof. intros H. cbn. apply Z.leb_le in H. by rewrite H. Qed.

Lemma quiet_elapse (ms : Z) (w : World) : quiet w -> quiet (elapse ms w).
Proof. by apply quiet_same. Qed.

Lemma quiet_received (m : qmsg) (w : World) : quiet w -> quiet (received m w).
Proof. intros H. by apply (quiet_next_fault QueueReceive) in H. Qed.

Lemma wants_online_quiet (uuid : string) (w : World) :
  quiet w ->
  wants_online uuid w =
  match live_value (record_key uuid) w with
  | Some (RecordJson id currentState) =>
      negb (truthy id) || negb (currentState =? state_value Online)
  | _ => true
  end.
Proof. intros H. unfold wants_online. by rewrite (quiet_fails RedisGet w H). Qed.

(** The log of a heartbeat and of a round is added to the log there was. *)
Lemma captureEventFor_trace (uuid : string) (timeoutSeconds : Z) (w : World) :
  w_trace (after (captureEventFor uuid timeoutSeconds) w) =
  w_trace w ++ events (captureEventFor uuid timeoutSeconds) w.
Proof. apply (adds_events _ _ w (adds_heartbeat uuid timeoutSeconds)). Qed.

Lemma handle_trace (grace : Z) (id : string) (message : message_text) (w : World) :
  w_trace (after (handle grace id message) w) = w_trace w ++ events (handle grace id message) w.
Proof. apply (adds_events _ _ w (adds_handle grace id message)). Qed.

Lemma writes_of_app (l1 l2 : list event) : writes_of (l1 ++ l2) = writes_of l1 ++ writes_of l2.
Proof. unfold writes_of. apply List.flat_map_app. Qed.

(** A round in a quiet world whose queue holds one message, which is due. *)
Lemma round_single (grace : Z) (w : World) (m : qmsg) :
  quiet w -> w_queue w = [m] -> m_visible m <= w_now w ->
  let wr := received m w in
  after (consume_round grace) w = after (handle grace (m_id m) (m_message m)) wr /\
  quiet wr /\ w_now wr = w_now w /\ w_store wr = w_store w /\ w_sent wr = w_sent w /\
  w_devices wr = w_devices w /\
  w_queue wr = [QMsg (m_id m) (m_message m) (w_now w + RSMQ_READ_TIMEOUT * 1000)] /\
  w_trace wr = w_trace w ++ [EvReceive RSMQ_READ_TIMEOUT true].
Proof.
  intros Hq Hqueue Hdue wr. subst wr.
  assert (Hm : earliest (w_now w) (w_queue w) = Some m)
    by (rewrite Hqueue; by apply earliest_single).
  destruct (consume_round_received grace w m (quiet_fails _ _ Hq) Hm) as (-> & _).
  split; [done|]. split; [by apply quiet_received|]. repeat split.
  cbn. rewrite Hqueue. cbn. by rewrite String.eqb_refl.
Qed.

Lemma truthy_message_id (n : N) : truthy (message_id n) = true.
Proof. reflexivity. Qed.

Lemma patch_twice (uuid : string) (s1 s2 : Z) (d : gmap string Z) :
  snd (patch_filtered uuid s2 (snd (patch_filtered uuid s1 d))) !! uuid =
  (fun _ => s2) <$> d !! uuid.
Proof. rewrite !patch_filtered_state. by destruct (d !! uuid). Qed.

(** The worlds after a first heartbeat and after the round that handles its
    Timeout message, when nothing is rejected. *)
Lemma online_then_timeout (uuid : string) (timeoutSeconds grace d1 : Z) (w : World) :
  quiet w -> w_queue w = [] -> live_value (record_key uuid) w = None ->
  timeoutSeconds * 1000 <= d1 ->
  let w1 := after (captureEventFor uuid timeoutSeconds) w in
  let w2 := after (consume_round grace) (elapse d1 w1) in
  quiet w2 /\ w_now w2 = w_now w + d1 /\ w_sent w2 = (w_sent w + 2)%N /\
  w_devices w1 = snd (patch_filtered uuid (state_value Online) (w_devices w)) /\
  w_devices w2 =
    snd (patch_filtered uuid (state_value Timeout)
           (snd (patch_filtered uuid (state_value Online) (w_devices w)))) /\
  w_queue w2 =
    [QMsg (message_id (w_sent w + 1)) (MessageJson uuid (state_value Offline))
       (w_now w + d1 + grace * 1000)] /\
  w_store w2 !! record_key uuid =
    Some (Entry (RecordJson (message_id (w_sent w + 1)) (state_value Timeout))
            (w_now w + d1 + (grace + 5) * 1000)) /\
  exists evs,
    w_trace w2 = w_trace w ++ evs /\
    writes_of evs = [(uuid, state_value Online); (uuid, state_value Timeout)].
Proof.
  intros Hq Hempty Hnone Hd1 w1 w2.
  (* the heartbeat *)
  destruct (heartbeat_effect uuid timeoutSeconds w Hq) as (_ & Hn1 & Hc1 & Hdev1 & Hq1 & Hs1 & Hw1);
    [by rewrite Hnone|].
  fold w1 in Hn1, Hc1, Hdev1, Hq1, Hs1.
  rewrite wants_online_quiet, Hnone in Hdev1, Hw1 by done.
  rewrite Hnone, Hempty in Hq1. cbn [app] in Hq1.
  assert (Hquiet1 : quiet w1) by (by apply keeps_quiet_heartbeat).
  pose proof (captureEventFor_trace uuid timeoutSeconds w) as Ht1. fold w1 in Ht1.
  set (m0 := QMsg (message_id (w_sent w)) (MessageJson uuid (state_value Timeout))
               (w_now w + timeoutSeconds * 1000)) in *.
  (* the round that handles the Timeout message *)
  destruct (round_single grace (elapse d1 w1) m0)
    as (Hr2 & Hqr & Hnr & Hsr & Hcr & Hdr & Hqr' & Htr);
    [by apply quiet_elapse | exact Hq1 | cbn; rewrite Hn1; lia |].
  fold w2 in Hr2.
  set (wr := received m0 (elapse d1 w1)) in *.
  cbn [elapse set_now w_now w_store w_sent w_devices w_trace] in Hnr, Hsr, Hcr, Hdr, Htr.
  assert (Hlive : live_value (record_key uuid) wr =
                  Some (RecordJson (message_id (w_sent w)) (state_value Online)) \/
                  live_value (record_key uuid) wr = None).
  { unfold live_value. rewrite Hsr, Hs1, lookup_insert_eq. cbn [e_value e_expires].
    destruct (w_now wr <? _); eauto. }
  destruct (handle_timeout_effect grace (m_id m0) uuid wr Hqr)
    as (Hn2 & Hc2 & Hdev2 & Hq2 & Hs2 & Hw2);
    [destruct Hlive as [-> | ->]; done|].
  change (handle grace (m_id m0) (MessageJson uuid (state_value Timeout)))
    with (handle grace (m_id m0) (m_message m0)) in *.
  rewrite <- Hr2 in Hn2, Hc2, Hdev2, Hq2, Hs2.
  pose proof (handle_trace grace (m_id m0) (m_message m0) wr) as Ht2.
  rewrite <- Hr2 in Ht2.
  split; [by apply keeps_quiet_consume_round, quiet_elapse|].
  split; [rewrite Hn2, Hnr, Hn1; reflexivity|].
  split; [rewrite Hc2, Hcr, Hc1; lia|].
  split; [exact Hdev1|].
  split; [by rewrite Hdev2, Hdr, Hdev1|].
  split.
  { rewrite Hq2, Hqr'. subst m0. rewrite Hcr, Hc1, Hnr, Hn1. cbn [m_id m_message].
    destruct Hlive as [-> | ->].
    - rewrite truthy_message_id, without_same. cbn [app].
      apply without_other. apply message_id_next.
    - rewrite without_app, without_same. cbn [app].
      apply without_other. apply message_id_next. }
  split.
  { rewrite Hs2, lookup_insert_eq, Hcr, Hc1, Hnr, Hn1. reflexivity. }
  eexists. split.
  - rewrite Ht2, Htr, Ht1, <- !app_assoc. reflexivity.
  - rewrite !writes_of_app, Hw1, Hw2. reflexivity.
Qed.

(** X11. A device that sends one heartbeat and then none goes Online, then
    Timeout, then Offline, and is never written anything else: in a world
    with an empty queue and no record for the device, where nothing is
    rejected, a heartbeat followed by a round of the consumer when the
    Timeout message is due, and by another round when the Offline message is
    due, writes Online, Timeout and Offline in this order and leaves the
    queue empty. *)
Theorem idle_cycle (uuid : string) (timeoutSeconds grace d1 d2 : Z) (w : World) :
  quiet w -> w_queue w = [] -> live_value (record_key uuid) w = None ->
  timeoutSeconds * 1000 <= d1 -> grace * 1000 <= d2 ->
  let w1 := after (captureEventFor uuid timeoutSeconds) w in
  let w2 := after (consume_round grace) (elapse d1 w1) in
  let w3 := after (consume_round grace) (elapse d2 w2) in
  w_devices w1 !! uuid = (fun _ => state_value Online) <$> w_devices w !! uuid /\
  w_devices w2 !! uuid = (fun _ => state_value Timeout) <$> w_devices w !! uuid /\
  w_devices w3 !! uuid = (fun _ => state_value Offline) <$> w_devices w !! uuid /\
  w_queue w3 = [] /\
  writes_of (events_between w w3) =
    [(uuid, state_value Online); (uuid, state_value Timeout); (uuid, state_value Offline)].
Proof.
  intros Hq Hempty Hnone Hd1 Hd2 w1 w2 w3.
  destruct (online_then_timeout uuid timeoutSeconds grace d1 w Hq Hempty Hnone Hd1)
    as (Hquiet2 & Hn2 & Hc2 & Hdev1 & Hdev2 & Hq2 & Hs2 & evs & Ht2 & Hw2).
  fold w1 in Hdev1. fold w1 w2 in Hquiet2, Hn2, Hc2, Hdev2, Hq2, Hs2, Ht2.
  set (m1 := QMsg (message_id (w_sent w + 1)) (MessageJson uuid (state_value Offline))
               (w_now w + d1 + grace * 1000)) in *.
  (* the round that handles the Offline message *)
  destruct (round_single grace (elapse d2 w2) m1)
    as (Hr3 & Hqs & Hns & Hss & Hcs & Hds & Hqs' & Hts);
    [by apply quiet_elapse | exact Hq2 | cbn; rewrite Hn2; lia |].
  fold w3 in Hr3.
  set (ws := received m1 (elapse d2 w2)) in *.
  cbn [elapse set_now w_now w_store w_sent w_devices w_trace] in Hns, Hss, Hcs, Hds, Hts.
  destruct (handle_offline_effect grace (m_id m1) uuid ws Hqs)
    as (Hn3 & Hc3 & Hs3 & Hdev3 & Hq3 & Hw3).
  change (handle grace (m_id m1) (MessageJson uuid (state_value Offline)))
    with (handle grace (m_id m1) (m_message m1)) in *.
  rewrite <- Hr3 in Hn3, Hc3, Hs3, Hdev3, Hq3.
  pose proof (handle_trace grace (m_id m1) (m_message m1) ws) as Ht3.
  rewrite <- Hr3 in Ht3.
  (* the devices, the queue and the writes *)
  split; [by rewrite Hdev1, patch_filtered_state|].
  split; [by rewrite Hdev2, patch_twice|].
  split.
  { rewrite Hdev3, Hds, Hdev2, patch_filtered_state, patch_twice.
    by destruct (w_devices w !! uuid). }
  split; [rewrite Hq3, Hqs'; apply without_same|].
  unfold events_between.
  rewrite Ht3, Hts, Ht2, <- !app_assoc, events_app, !writes_of_app, Hw2, Hw3.
  reflexivity.
Qed.

Lemma idle_cycle_witness :
  w_queue world0 = [] /\
  w_queue (after (consume_round 2)
             (elapse 2000 (after (consume_round 2)
                (elapse 5000 (after (captureEventFor "dev-1" 5) world0))))) = [].
Proof.
  split; [reflexivity|].
  apply (idle_cycle "dev-1" 5 2 5000 2000 world0); by vm_compute || lia.
Defined.



(** *** Heartbeats that keep coming *)

Lemma pending_without (uuid id : string) (q : list qmsg) :
  pending uuid (without id q) = without id (pending uuid q).
Proof.
  unfold pending, without. induction q as [|m q IH]; [done|].
  cbn [List.filter].
  destruct (String.eqb (m_id m) id) eqn:E1, (is_pending uuid m) eqn:E2;
    cbn [List.filter negb]; rewrite ?E1, ?E2; cbn [negb]; by rewrite IH.
Qed.

Lemma pending_app (uuid : string) (q1 q2 : list qmsg) :
  pending uuid (q1 ++ q2) = pending uuid q1 ++ pending uuid q2.
Proof. apply List.filter_app. Qed.

(** One more heartbeat of a device that is online and waited for. *)
Lemma armed_heartbeat (uuid : string) (timeoutSeconds gap : Z) (w : World) :
  armed uuid timeoutSeconds w -> 0 <= gap < (timeoutSeconds + 5) * 1000 ->
  let w' := after (captureEventFor uuid timeoutSeconds) (elapse gap w) in
  armed uuid timeoutSeconds w' /\ w_devices w' = w_devices w /\
  (exists id, pending uuid (w_queue w') =
              [QMsg id (MessageJson uuid (state_value Timeout))
                 (w_now w' + timeoutSeconds * 1000)]) /\
  exists evs, w_trace w' = w_trace w ++ evs /\ writes_of evs = [].
Proof.
  intros (Hq & id & due & ex & Hid & Hp & Hs & Hex) Hgap w'.
  set (we := elapse gap w) in *.
  assert (Hqe : quiet we) by (by apply quiet_elapse).
  assert (Hlive : live_value (record_key uuid) we = Some (RecordJson id (state_value Online))).
  { unfold live_value. cbn [we elapse set_now w_store w_now]. rewrite Hs.
    cbn [e_value e_expires].
    assert (H : (w_now w + gap <? ex) = true) by (apply Z.ltb_lt; lia).
    by rewrite H. }
  assert (Ht : truthy id = true).
  { destruct (truthy id) eqn:E; [done|]. by apply truthy_false in E. }
  destruct (heartbeat_effect uuid timeoutSeconds we Hqe)
    as (_ & Hn & Hc & Hdev & Hqu & Hst & Hw); [by rewrite Hlive|].
  fold w' in Hn, Hc, Hdev, Hqu, Hst.
  rewrite wants_online_quiet, Hlive, Ht in Hdev, Hw by done.
  change (negb true || negb (state_value Online =? state_value Online)) with false in Hdev, Hw.
  cbv iota in Hdev, Hw. rewrite Hlive, Ht in Hqu.
  cbn [we elapse set_now w_queue w_sent w_now w_devices w_store] in Hqu, Hdev, Hst, Hn, Hc.
  pose proof (captureEventFor_trace uuid timeoutSeconds we) as Htr. fold w' in Htr.
  cbn [we elapse set_now w_trace] in Htr.
  assert (Hp' : pending uuid (w_queue w') =
                [QMsg (message_id (w_sent w)) (MessageJson uuid (state_value Timeout))
                   (w_now w' + timeoutSeconds * 1000)]).
  { rewrite Hqu, pending_app, pending_without, Hp, without_same, Hn. cbn [app].
    unfold pending, is_pending. cbn. by rewrite String.eqb_refl. }
  split; [|split; [exact Hdev|split; [by eexists|]]].
  - split; [by apply keeps_quiet_heartbeat|].
    exists (message_id (w_sent w)), (w_now w' + timeoutSeconds * 1000),
      (w_now w' + (timeoutSeconds + 5) * 1000).
    split; [done|]. split; [exact Hp'|]. split; [|lia].
    rewrite Hst, lookup_insert_eq, Hn. reflexivity.
  - eexists. split; [exact Htr | exact Hw].
Qed.


Lemma quiet_fresh_trace (w : World) : quiet w -> quiet (fresh_trace w).
Proof. by apply quiet_same. Qed.

Lemma armed_heartbeat_sent : armed "dev-1" 5 heartbeat_sent.
Proof.
  split.
  - unfold heartbeat_sent. apply quiet_fresh_trace. by apply keeps_quiet_heartbeat.
  - exists "m0", 5000, 10000. split; [done|]. split; [by vm_compute|].
    split; [by vm_compute | by vm_compute].
Qed.

